(** * Lectio: the indexing and query pipeline

    A shallow embedding of [python/index_corpus_qdrant.py] (paragraph
    extraction, collection set-up, batched indexing) and of
    [python/lectio_backend.py] (the [/search] endpoint), with the
    properties the specification states about them. *)

From Stdlib Require Import ZArith NArith List String Ascii Bool Lia DecimalString.
From Stdlib Require Import Floats.PrimFloat.
From stdpp Require Import base option list gmap.

Local Open Scope Z_scope.

(** ** Python strings

    A Python [str] is a sequence of Unicode code points; [len] counts code
    points and [strip] works on code points. *)

Module Str.

Definition char := N.
Definition str := list char.

(** Literals: the code points of an 8-bit string. *)
Fixpoint of_string (s : string) : str :=
  match s with
  | EmptyString => []
  | String a s' => N_of_ascii a :: of_string s'
  end.

Definition LF : char := 10%N.

(** [str.isspace] on one code point: the code points CPython's
    [_PyUnicode_IsWhitespace] accepts. *)
Definition isspace (c : char) : bool :=
  ((9 <=? c) && (c <=? 13) || (28 <=? c) && (c <=? 32)
   || (c =? 133) || (c =? 160) || (c =? 5760)
   || (8192 <=? c) && (c <=? 8202)
   || (c =? 8232) || (c =? 8233) || (c =? 8239) || (c =? 8287)
   || (c =? 12288))%N.

(** [s.lstrip()], [s.rstrip()], [s.strip()] *)
Fixpoint lstrip (s : str) : str :=
  match s with
  | c :: s' => if isspace c then lstrip s' else s
  | [] => []
  end.

Definition rstrip (s : str) : str := rev (lstrip (rev s)).

Definition strip (s : str) : str := rstrip (lstrip s).

(** [len(s)] *)
Definition len (s : str) : Z := Z.of_nat (length s).

(** [s.split(sep)] for a non-empty separator: cut at every occurrence of
    [sep], scanning left to right, occurrences not overlapping.  [skip]
    counts the code points of a separator just matched that are still to be
    passed over; [cur] is the piece being read, in reverse. *)
Fixpoint starts_with (sep s : str) : bool :=
  match sep, s with
  | [], _ => true
  | a :: sep', b :: s' => (a =? b)%N && starts_with sep' s'
  | _ :: _, [] => false
  end.

Fixpoint split_from (sep : str) (skip : nat) (cur : str) (s : str) : list str :=
  match s with
  | [] => [rev cur]
  | c :: s' =>
      match skip with
      | S k => split_from sep k cur s'
      | O =>
          if starts_with sep s
          then rev cur :: split_from sep (length sep - 1) [] s'
          else split_from sep 0 (c :: cur) s'
      end
  end.

Definition split (sep : str) (s : str) : list str := split_from sep 0 [] s.

(** [not s] *)
Definition is_empty (s : str) : bool :=
  match s with [] => true | _ => false end.

(** [sep.join(parts)] *)
Fixpoint join (sep : str) (parts : list str) : str :=
  match parts with
  | [] => []
  | [p] => p
  | p :: ps => p ++ sep ++ join sep ps
  end.

End Str.
Import Str.


(** ** Paragraph extraction ([index_corpus_qdrant.iter_paragraphs]) *)

Definition path := str.

(** [enumerate(l)], counting from [i]. *)
Fixpoint enumerate_from {A} (i : nat) (l : list A) : list (nat * A) :=
  match l with
  | [] => []
  | x :: l' => (i, x) :: enumerate_from (S i) l'
  end.

Definition enumerate {A} (l : list A) : list (nat * A) := enumerate_from 0 l.

(** [len(p) > 40] *)
Definition long_enough (p : str) : bool := 40 <? len p.

(** [raw_paragraphs = [p.strip() for p in text.split("\n\n")]] *)
Definition raw_paragraphs (text : str) : list str :=
  map strip (split [LF; LF] text).

(** [paragraphs = [p for p in raw_paragraphs if len(p) > 40]] *)
Definition paragraphs (text : str) : list str :=
  List.filter long_enough (raw_paragraphs text).

(** What the generator yields for one file whose content is [text]:
    [(idx, para)] for [idx, para in enumerate(paragraphs)]. *)
Definition file_paragraphs (text : str) : list (nat * str) :=
  enumerate (paragraphs text).

(** The splitting rule in the words of the specification: the body is
    divided on blank-line boundaries, one or more fully empty lines acting
    as a paragraph separator; each segment is trimmed; segments of trimmed
    length at most 40 are discarded; the retained ones are numbered from 0.

    No function of the code is used here: the lines come from a scan of
    their own, the white space from a table, and the trimming and the
    length test are written out again. *)
Module BlankLine.

Definition line_feed : char := 10%N.

(** The lines of a body, read one code point at a time: a line ends at a
    line feed or at the end of the body.  [cur] is the line being read. *)
Fixpoint lines_from (cur : str) (body : str) : list str :=
  match body with
  | [] => [cur]
  | c :: rest =>
      if (c =? line_feed)%N
      then cur :: lines_from [] rest
      else lines_from (cur ++ [c]) rest
  end.

Definition lines (body : str) : list str := lines_from [] body.

(** A line is fully empty when it has no code point at all. *)
Definition fully_empty (l : str) : bool :=
  match l with [] => true | _ :: _ => false end.

(** A segment in progress [cur] is closed when a separator or the end of
    the body is reached; nothing is produced between adjacent separators. *)
Definition close (cur : list str) : list (list str) :=
  match cur with [] => [] | _ => [cur] end.

Fixpoint group_lines (cur : list str) (ls : list str) : list (list str) :=
  match ls with
  | [] => close cur
  | l :: ls' =>
      if fully_empty l
      then close cur ++ group_lines [] ls'
      else group_lines (cur ++ [l]) ls'
  end.

(** The lines of a segment put back together, a line feed between two
    lines. *)
Fixpoint unlines (ls : list str) : str :=
  match ls with
  | [] => []
  | [l] => l
  | l :: ls' => l ++ line_feed :: unlines ls'
  end.

(** The segments: maximal runs of non-empty lines. *)
Definition segments (body : str) : list str :=
  map unlines (group_lines [] (lines body)).

(** White space: the code points of Unicode's White_Space property and the
    four information separators (28 to 31) that Python counts with them. *)
Definition white_space : list char :=
  [9; 10; 11; 12; 13; 28; 29; 30; 31; 32; 133; 160; 5760;
   8192; 8193; 8194; 8195; 8196; 8197; 8198; 8199; 8200; 8201; 8202;
   8232; 8233; 8239; 8287; 12288]%N.

Definition whitespace (c : char) : bool := existsb (N.eqb c) white_space.

Fixpoint drop_leading (s : str) : str :=
  match s with
  | [] => []
  | c :: s' => if whitespace c then drop_leading s' else s
  end.

Fixpoint drop_trailing (s : str) : str :=
  match s with
  | [] => []
  | c :: s' =>
      match drop_trailing s' with
      | [] => if whitespace c then [] else [c]
      | t => c :: t
      end
  end.

Definition trim (s : str) : str := drop_trailing (drop_leading s).

(** The trimmed segments, without those of length at most 40. *)
Definition retained (body : str) : list str :=
  List.filter (fun p => negb (length p <=? 40)%nat) (map trim (segments body)).

End BlankLine.


(** ** Exceptions, effects and traces

    Both programs talk to two remote services; every such call either
    returns or raises.  All exceptions below are subclasses of Python's
    [Exception]. *)

(** An embedding: [List[float]] *)
Definition floats := list float.

Inductive detail :=
| QueryTextIsEmpty
| OllamaError
| FailedToGetEmbedding
| QdrantSearchFailed.

Inductive exn :=
| ConnectionError                         (* requests: the POST did not complete *)
| HTTPError (status : Z)                  (* requests: [raise_for_status] *)
| JSONDecodeError                         (* [resp.json()] on a body that is not JSON *)
| KeyError (key : str)                    (* [data["embedding"]] on a body without it *)
| UnexpectedResponse (status : Z)         (* qdrant_client: the store answered with an error *)
| ResponseHandlingException               (* qdrant_client: the store could not be reached *)
| TypeError
| ValueError
| HTTPException (status_code : Z) (d : detail).   (* fastapi *)

(** The HTTP exchange with Ollama's [/api/embeddings]. *)
Inductive body :=
| NotJSON
| NoEmbeddingField
| EmbeddingField (embedding : floats).

Inductive reply :=
| NoReply (e : exn)                       (* [session.post] raises *)
| Reply (status : Z) (b : body).

Section Effects.

Context {S E : Type}.

(** The state of the remote services and the calls and prints made so far. *)
Record world := World { store : S; trace : list E }.

Definition M (A : Type) : Type := world -> (exn + A) * world.

Definition ret {A} (a : A) : M A := fun w => (inr a, w).

Definition raise {A} (e : exn) : M A := fun w => (inl e, w).

Definition bind {A B} (c : M A) (k : A -> M B) : M B :=
  fun w =>
    match c w with
    | (inl e, w') => (inl e, w')
    | (inr a, w') => k a w'
    end.

(** [try: c  except Exception as e: h(e)] *)
Definition try_except {A} (c : M A) (h : exn -> M A) : M A :=
  fun w =>
    match c w with
    | (inl e, w') => h e w'
    | (inr a, w') => (inr a, w')
    end.

Definition emit (e : E) : M unit :=
  fun w => (inr tt, World (store w) (trace w ++ [e])).

(** A call to a remote service: the service moves to a new state and
    answers; the call and its answer are recorded. *)
Definition call {R} (f : S -> R * S) (ev : R -> E) : M R :=
  fun w =>
    let (r, s') := f (store w) in
    (inr r, World s' (trace w ++ [ev r])).

(** [r] is what a service call returned: a value, or the exception raised. *)
Definition lift {A} (r : exn + A) : M A :=
  match r with inl e => raise e | inr a => ret a end.

End Effects.

Arguments world : clear implicits.
Arguments M : clear implicits.

Declare Scope py_scope.
Delimit Scope py_scope with py.
Notation "x <- c ;; k" := (bind c (fun x => k))
  (at level 100, c at next level, right associativity) : py_scope.
Notation "c ;;; k" := (bind c (fun _ => k))
  (at level 100, right associativity) : py_scope.

(** [resp.raise_for_status()] *)
Definition raise_for_status (status : Z) : exn + unit :=
  if (400 <=? status) && (status <? 600) then inl (HTTPError status) else inr tt.

(** [resp.json()["embedding"]] *)
Definition embedding_of_body (b : body) : exn + floats :=
  match b with
  | NotJSON => inl JSONDecodeError
  | NoEmbeddingField => inl (KeyError (of_string "embedding"))
  | EmbeddingField v => inr v
  end.


(** ** The indexing script ([python/index_corpus_qdrant.py]) *)

Module Indexer.

(** [PointStruct(id=pid, vector=emb, payload={"file": ..., "paragraph_index":
    ..., "text": ...})] *)
Record Payload := { file : str; paragraph_index : nat; text : str }.
Record PointStruct := { id : nat; vector : floats; payload : Payload }.

(** What [client.get_collection] returns, as far as the script reads it:
    [existing.vectors_count] and [existing.config.params.vectors.size]. *)
Record CollectionInfo := { vectors_count : option Z; size : Z }.

Inductive message :=
| FailedToRead (p : path)
| NoParagraphsFound
| FoundParagraphs (total : nat)
| GettingDimensionFrom (p : path)
| EmbeddingDimension (dim : Z)
| ReusingCollection (name : str) (dim : Z)
| RecreatingCollection (name : str) (dim : Z)
| CreatingCollection (name : str) (dim : Z)
| Upserted (n : nat) (last_file : path)
| UpsertedFinal (n : nat)
| IndexingComplete.

Inductive event :=
| Embed (prompt : str) (r : reply)
| GetCollection (name : str) (r : exn + CollectionInfo)
| RecreateCollection (name : str) (dim : Z) (r : exn + unit)
| Upsert (name : str) (points : list PointStruct) (r : exn + unit)
| Print (m : message).

(** The remote services: the Ollama server behind [session.post] and the
    Qdrant server behind [client]. *)
Record services (S : Type) := {
  post_embeddings : str -> S -> reply * S;
  get_collection : str -> S -> (exn + CollectionInfo) * S;
  recreate_collection : str -> Z -> S -> (exn + unit) * S;
  upsert : str -> list PointStruct -> S -> (exn + unit) * S
}.
Arguments post_embeddings {S}.
Arguments get_collection {S}.
Arguments recreate_collection {S}.
Arguments upsert {S}.

(** *** The corpus and the generator [iter_paragraphs] *)

(** What [text_root.rglob("*.txt")] finds, in the order it finds it. *)
Inductive entry :=
| NotAFile                  (* [is_file()] is false *)
| Unreadable                (* [read_text] raises *)
| Text (content : str).

Definition corpus := list (path * entry).

(** One step of the generator: it prints, or it yields. *)
Inductive step :=
| Log (m : message)
| Yield (txt_path : path) (idx : nat) (para : str).

Definition file_steps (f : path * entry) : list step :=
  match snd f with
  | NotAFile => []
  | Unreadable => [Log (FailedToRead (fst f))]
  | Text content =>
      map (fun ip => Yield (fst f) (fst ip) (snd ip)) (file_paragraphs content)
  end.

Definition iter_paragraphs (text_root : corpus) : list step :=
  flat_map file_steps text_root.

(** The chunks of a corpus: what the generator yields. *)
Fixpoint yields (g : list step) : list (path * nat * str) :=
  match g with
  | [] => []
  | Log _ :: g' => yields g'
  | Yield p i para :: g' => (p, i, para) :: yields g'
  end.

Definition chunks (text_root : corpus) : list (path * nat * str) :=
  yields (iter_paragraphs text_root).

Record args := {
  text_dir : option corpus;       (* [None]: the directory does not exist *)
  collection : str;
  batch_size : Z
}.

Inductive exit :=
| Returned
| SystemExit
| Raised (e : exn).

Section Script.

Context {S : Type} (svc : services S).

Local Open Scope py_scope.

Local Abbreviation M := (M S event).

Definition print (m : message) : M unit := emit (Print m).

(** [get_embedding(session, ollama_url, model, text)] *)
Definition get_embedding (text : str) : M floats :=
  resp <- call (post_embeddings svc text) (Embed text) ;;
  match resp with
  | NoReply e => raise e
  | Reply status b =>
      lift (raise_for_status status) ;;;
      lift (embedding_of_body b)
  end.

(** [a or b] on an optional integer [a] *)
Definition or_else (a : option Z) (b : Z) : Z :=
  match a with
  | Some n => if n =? 0 then b else n
  | None => b
  end.

(** [ensure_collection(client, collection_name, dim)] *)
Definition ensure_collection (collection_name : str) (dim : Z) : M unit :=
  r <- call (get_collection svc collection_name) (GetCollection collection_name) ;;
  existing <- lift r ;;
  let existing_dim := or_else (vectors_count existing) (size existing) in
  if existing_dim =? dim
  then print (ReusingCollection collection_name dim)
  else
    print (RecreatingCollection collection_name dim) ;;;
    r <- call (recreate_collection svc collection_name dim)
              (RecreateCollection collection_name dim) ;;
    lift r.

(** [sum(1 for _ in iter_paragraphs(args.text_dir))]: runs the generator
    to its end. *)
Fixpoint count_all (g : list step) : M nat :=
  match g with
  | [] => ret 0%nat
  | Log m :: g' => print m ;;; count_all g'
  | Yield _ _ _ :: g' => n <- count_all g' ;; ret (Datatypes.S n)
  end.

(** [next(paragraphs)]: runs the generator to its first yield; [None] is
    [StopIteration]. *)
Fixpoint next (g : list step) : M (option ((path * nat * str) * list step)) :=
  match g with
  | [] => ret None
  | Log m :: g' => print m ;;; next g'
  | Yield p i para :: g' => ret (Some ((p, i, para), g'))
  end.

(** The body of the [for] loop of [main], on one item of
    [all_paragraphs()]; [buffer] and the next value of [point_id_counter]
    are threaded through. *)
Definition loop_body (a : args) (item : path * nat * str) (maybe_emb : option floats)
    (st : list PointStruct * nat) : M (list PointStruct * nat) :=
  let '(path, idx, para) := item in
  let '(buffer, counter) := st in
  emb <- match maybe_emb with
         | None => get_embedding para
         | Some e => ret e
         end ;;
  let pid := counter in
  let payload := {| file := path; paragraph_index := idx; text := para |} in
  let buffer := buffer ++ [{| id := pid; vector := emb; payload := payload |}] in
  if batch_size a <=? Z.of_nat (length buffer)
  then
    r <- call (upsert svc (collection a) buffer) (Upsert (collection a) buffer) ;;
    lift r ;;;
    print (Upserted (length buffer) path) ;;;
    ret ([], Datatypes.S pid)
  else ret (buffer, Datatypes.S pid).

(** The [for] loop over the rest of [all_paragraphs()]: the generator
    [paragraphs] is resumed after each iteration, and every item it yields
    comes with [maybe_emb = None]. *)
Fixpoint stream (a : args) (paragraphs : list step)
    (st : list PointStruct * nat) : M (list PointStruct * nat) :=
  match paragraphs with
  | [] => ret st
  | Log m :: rest => print m ;;; stream a rest st
  | Yield p i para :: rest =>
      st' <- loop_body a (p, i, para) None st ;;
      stream a rest st'
  end.

(** [if buffer: client.upsert(...); print(...)] *)
Definition flush (a : args) (buffer : list PointStruct) : M unit :=
  match buffer with
  | [] => ret tt
  | _ :: _ =>
      r <- call (upsert svc (collection a) buffer) (Upsert (collection a) buffer) ;;
      lift r ;;;
      print (UpsertedFinal (length buffer))
  end.

(** The "create or check collection" step of [main]:
    [try: ensure_collection(client, args.collection, dim)]
    [except Exception: print(...); client.recreate_collection(...)] *)
Definition ensuring_collection (a : args) (dim : Z) : M unit :=
  try_except (ensure_collection (collection a) dim)
    (fun _ =>
       print (CreatingCollection (collection a) dim) ;;;
       r <- call (recreate_collection svc (collection a) dim)
                 (RecreateCollection (collection a) dim) ;;
       lift r).

(** [main()], once the text directory is known to exist. *)
Definition index_corpus (a : args) (text_root : corpus) : M unit :=
  total_paragraphs <- count_all (iter_paragraphs text_root) ;;
  if (total_paragraphs =? 0)%nat
  then print NoParagraphsFound
  else
    print (FoundParagraphs total_paragraphs) ;;;
    first <- next (iter_paragraphs text_root) ;;
    match first with
    | None => print NoParagraphsFound
    | Some ((first_path, first_idx, first_text), paragraphs) =>
        print (GettingDimensionFrom first_path) ;;;
        first_embedding <- get_embedding first_text ;;
        let dim := Z.of_nat (length first_embedding) in
        print (EmbeddingDimension dim) ;;;
        ensuring_collection a dim ;;;
        st <- loop_body a (first_path, first_idx, first_text)
                (Some first_embedding) ([], 0%nat) ;;
        st <- stream a paragraphs st ;;
        flush a (fst st) ;;;
        print IndexingComplete
    end.

Definition main (a : args) (s : S) : exit * world S event :=
  match text_dir a with
  | None => (SystemExit, World s [])
  | Some text_root =>
      match index_corpus a text_root (World s []) with
      | (inl e, w) => (Raised e, w)
      | (inr _, w) => (Returned, w)
      end
  end.

End Script.


(** *** Reading a trace *)

(** What [get_embedding] makes of a reply. *)
Definition embedding_result (rep : reply) : exn + floats :=
  match rep with
  | NoReply e => inl e
  | Reply status b =>
      match raise_for_status status with
      | inl e => inl e
      | inr _ => embedding_of_body b
      end
  end.

(** The prompts sent to the embedding service, in order. *)
Definition embed_prompts (tr : list event) : list str :=
  flat_map (fun e => match e with Embed prompt _ => [prompt] | _ => [] end) tr.

(** The embeddings the service returned, in order. *)
Definition embeddings (tr : list event) : list floats :=
  flat_map (fun e =>
              match e with
              | Embed _ rep =>
                  match embedding_result rep with inr v => [v] | inl _ => [] end
              | _ => []
              end) tr.

(** The batches passed to [client.upsert], in order. *)
Definition upserts (tr : list event) : list (list PointStruct) :=
  flat_map (fun e => match e with Upsert _ pts _ => [pts] | _ => [] end) tr.

Definition is_print (e : event) : bool :=
  match e with Print _ => true | _ => false end.

(** Events of the probing and collection steps: no prompt, no batch. *)
Definition is_quiet (e : event) : bool :=
  match e with Embed _ _ | Upsert _ _ _ => false | _ => true end.

(** The messages the generator prints when run to its end. *)
Fixpoint logs (g : list step) : list message :=
  match g with
  | [] => []
  | Log m :: g' => m :: logs g'
  | Yield _ _ _ :: g' => logs g'
  end.

(** The point the loop builds for a chunk. *)
Definition mk_point (pid : nat) (c : path * nat * str) (emb : floats) : PointStruct :=
  {| id := pid;
     vector := emb;
     payload := {| file := fst (fst c); paragraph_index := snd (fst c); text := snd c |} |}.

Fixpoint mk_points (pid : nat) (cs : list (path * nat * str)) (embs : list floats)
    : list PointStruct :=
  match cs, embs with
  | c :: cs', emb :: embs' => mk_point pid c emb :: mk_points (Datatypes.S pid) cs' embs'
  | _, _ => []
  end.

(** Services that answer every embedding request with an embedding and
    carry out every write; the look-up of a collection may still fail. *)
Definition reliable {S} (svc : services S) : Prop :=
  (forall prompt s, exists v, embedding_result (fst (post_embeddings svc prompt s)) = inr v)
  /\ (forall name dim s, fst (recreate_collection svc name dim s) = inr tt)
  /\ (forall name pts s, fst (upsert svc name pts s) = inr tt).

(** [ceil(N / B)], and the batch sizes the flush invariant prescribes:
    full batches, then the remainder if there is one. *)
Definition ceil_div (N B : Z) : Z := (N + B - 1) / B.

Definition batch_sizes (N B : Z) : list Z :=
  repeat B (Z.to_nat (N / B)) ++ (if N mod B =? 0 then [] else [N mod B]).

End Indexer.

(** ** A reference store

    The Qdrant server as the script sees it: named collections, each with
    the vector size it was created with and its points.  [get_collection]
    fails for an unknown name and otherwise reports the number of stored
    vectors and the configured size; [recreate_collection] replaces the
    collection by an empty one; [upsert] writes or overwrites points by id
    and refuses vectors of another size.  The embedding server is a function
    from prompts to replies. *)

Module MemStore.

Import Indexer.

Record collection := { params_size : Z; points : list PointStruct }.

Definition state := gmap str collection.

Definition get_collection (name : str) (st : state) : (exn + CollectionInfo) * state :=
  match st !! name with
  | None => (inl (UnexpectedResponse 404), st)
  | Some c =>
      (inr {| vectors_count := Some (Z.of_nat (length (points c)));
              size := params_size c |}, st)
  end.

Definition recreate_collection (name : str) (dim : Z) (st : state) : (exn + unit) * state :=
  (inr tt, <[name := {| params_size := dim; points := [] |}]> st).

Definition has_id (i : nat) (pts : list PointStruct) : bool :=
  existsb (fun p => Nat.eqb (id p) i) pts.

Definition write_points (old new : list PointStruct) : list PointStruct :=
  List.filter (fun p => negb (has_id (id p) new)) old ++ new.

Definition upsert (name : str) (pts : list PointStruct) (st : state) : (exn + unit) * state :=
  match st !! name with
  | None => (inl (UnexpectedResponse 404), st)
  | Some c =>
      if forallb (fun p => Z.of_nat (length (vector p)) =? params_size c) pts
      then (inr tt, <[name := {| params_size := params_size c;
                                 points := write_points (points c) pts |}]> st)
      else (inl (UnexpectedResponse 400), st)
  end.

Definition services (model : str -> reply) : Indexer.services state :=
  {| Indexer.post_embeddings := fun prompt st => (model prompt, st);
     Indexer.get_collection := get_collection;
     Indexer.recreate_collection := recreate_collection;
     Indexer.upsert := upsert |}.

End MemStore.

(** ** The search service ([python/lectio_backend.py]) *)

Module Backend.

Record SearchRequest := { query : str; top_k : Z }.

Record SearchResult := {
  score : float;
  file : str;
  paragraph_index : Z;
  text : str
}.

(** A value stored in a point's payload, as [point_to_result] can observe
    it: what [str(v)] gives, and what [int(v)] gives or raises. *)
Record pyobject := { py_str : str; py_int : exn + Z }.

(** [None]: [str(None)] is ["None"], [int(None)] raises [TypeError]. *)
Definition py_None : pyobject :=
  {| py_str := of_string "None"; py_int := inl TypeError |}.

(** An integer [z]: [str(z)] is its decimal numeral, [int(z)] is [z]. *)
Definition py_of_int (z : Z) : pyobject :=
  {| py_str := of_string (NilZero.string_of_int (Z.to_int z)); py_int := inr z |}.

(** The integer [0], the default of [payload.get("paragraph_index", 0)]. *)
Definition py_zero : pyobject := py_of_int 0.

(** The empty string, the default of [payload.get("file", "")]:
    [int("")] raises [ValueError]. *)
Definition py_empty : pyobject :=
  {| py_str := []; py_int := inl ValueError |}.

(** A string that is not an integer literal. *)
Definition py_text (s : str) : pyobject :=
  {| py_str := s; py_int := inl ValueError |}.

(** [ScoredPoint], as far as the service reads it. *)
Record ScoredPoint := {
  point_score : float;
  point_payload : option (gmap str pyobject)
}.

Inductive event :=
| Embed (prompt : str) (r : reply)
| Search (collection_name : str) (query_vector : floats) (limit : Z)
         (r : exn + list ScoredPoint).

Record services (S : Type) := {
  post_embeddings : str -> S -> reply * S;
  client_search : str -> floats -> Z -> S -> (exn + list ScoredPoint) * S
}.
Arguments post_embeddings {S}.
Arguments client_search {S}.

(** [point.payload or {}] *)
Definition payload_or_empty (payload : option (gmap str pyobject)) : gmap str pyobject :=
  match payload with
  | Some d => d
  | None => ∅
  end.

(** [payload.get(key, default)] *)
Definition get (payload : gmap str pyobject) (key : str) (default : pyobject) : pyobject :=
  match payload !! key with
  | Some v => v
  | None => default
  end.

(** [float(x or 0.0)]: a float is falsy when it equals zero. *)
Definition float_or_zero (x : float) : float :=
  if PrimFloat.eqb x 0 then 0%float else x.

Definition point_to_result (point : ScoredPoint) : exn + SearchResult :=
  let payload := payload_or_empty (point_payload point) in
  match py_int (get payload (of_string "paragraph_index") py_zero) with
  | inl e => inl e
  | inr idx =>
      inr {| score := float_or_zero (point_score point);
             file := py_str (get payload (of_string "file") py_empty);
             paragraph_index := idx;
             text := py_str (get payload (of_string "text") py_empty) |}
  end.

(** [[point_to_result(p) for p in points]] *)
Fixpoint map_points (points : list ScoredPoint) : exn + list SearchResult :=
  match points with
  | [] => inr []
  | p :: points' =>
      match point_to_result p with
      | inl e => inl e
      | inr r =>
          match map_points points' with
          | inl e => inl e
          | inr rs => inr (r :: rs)
          end
      end
  end.

(** *** Reading a result *)

Definition payload_of (p : ScoredPoint) : gmap str pyobject :=
  payload_or_empty (point_payload p).

(** The fields of a result, read off the point with the defaults. *)
Definition mapped_with_defaults (p : ScoredPoint) (r : SearchResult) : Prop :=
  score r = float_or_zero (point_score p)
  /\ file r = match payload_of p !! of_string "file" with
              | Some v => py_str v
              | None => []
              end
  /\ match payload_of p !! of_string "paragraph_index" with
     | Some v => py_int v = inr (paragraph_index r)
     | None => paragraph_index r = 0
     end
  /\ text r = match payload_of p !! of_string "text" with
              | Some v => py_str v
              | None => []
              end.

(** [int()] accepts the [paragraph_index] of [p] if there is one. *)
Definition index_converts (p : ScoredPoint) : bool :=
  match payload_of p !! of_string "paragraph_index" with
  | Some v => match py_int v with inr _ => true | inl _ => false end
  | None => true
  end.

(** The status of the HTTP response: an [HTTPException] carries it, any
    other exception that leaves the endpoint is an internal server error. *)
Definition status_of {A} (r : exn + A) : Z :=
  match r with
  | inr _ => 200
  | inl (HTTPException status _) => status
  | inl _ => 500
  end.

Section Service.

Context {S : Type} (svc : services S) (QDRANT_COLLECTION : str).

Local Open Scope py_scope.

Local Abbreviation M := (M S event).

Definition get_embedding (text : str) : M floats :=
  resp <- call (post_embeddings svc text) (Embed text) ;;
  match resp with
  | NoReply e => raise e
  | Reply status b =>
      match raise_for_status status with
      | inl _ => raise (HTTPException 502 OllamaError)
      | inr _ => lift (embedding_of_body b)
      end
  end.

(** [POST /search] *)
Definition search (req : SearchRequest) : M (list SearchResult) :=
  let query := strip (query req) in
  if is_empty query
  then raise (HTTPException 400 QueryTextIsEmpty)
  else
    embedding <- try_except (get_embedding query)
                   (fun exc =>
                      match exc with
                      | HTTPException _ _ => raise exc
                      | _ => raise (HTTPException 502 FailedToGetEmbedding)
                      end) ;;
    points <- try_except
                (r <- call (client_search svc QDRANT_COLLECTION embedding (top_k req))
                           (Search QDRANT_COLLECTION embedding (top_k req)) ;;
                 lift r)
                (fun _ => raise (HTTPException 502 QdrantSearchFailed)) ;;
    lift (map_points points).

End Service.

(** Services that always answer the same. *)
Definition constant_services (rep : reply) (found : exn + list ScoredPoint)
    : services unit :=
  {| post_embeddings := fun _ s => (rep, s);
     client_search := fun _ _ _ s => (found, s) |}.

End Backend.

(** The source text of the specification's end-to-end scenario. *)
Definition sample_body : str := of_string
"Short.

This is a sufficiently long paragraph exceeding forty characters for retention.".

(** A body with white space round its paragraphs, three line feeds in a
    row, a short segment, a line of spaces inside a paragraph and a line
    feed at the end. *)
Definition first_paragraph : str :=
  of_string "The first paragraph is long enough to be kept as a chunk.".

Definition second_paragraph : str :=
  of_string "The second paragraph has a line feed" ++ [LF]
  ++ of_string "and a line of spaces" ++ [LF]
  ++ of_string "   " ++ [LF]
  ++ of_string "inside, and is kept as one chunk.".

Definition ragged_body : str :=
  of_string "  " ++ first_paragraph ++ of_string "  " ++ [LF; LF; LF]
  ++ of_string "Short." ++ [LF; LF]
  ++ of_string " " ++ second_paragraph ++ [LF].

(** ** Sample inputs *)

Module Sample.

Import Indexer.

Definition long_paragraph : str := of_string
  "This is a sufficiently long paragraph exceeding forty characters for retention.".

(** Three long paragraphs and a short one, the last separator an odd run. *)
Definition body4 : str :=
  long_paragraph ++ [LF; LF] ++ of_string "Short." ++ [LF; LF]
  ++ long_paragraph ++ [LF; LF; LF] ++ long_paragraph.

Definition root : corpus :=
  [(of_string "a.txt", Text body4);
   (of_string "dir.txt", NotAFile);
   (of_string "b.txt", Unreadable);
   (of_string "c.txt", Text sample_body)].

Definition short_root : corpus :=
  [(of_string "a.txt", Text (of_string "Short."));
   (of_string "b.txt", Unreadable)].

Definition lectio_corpus : str := of_string "lectio_corpus".

Definition index_args (text_root : corpus) (B : Z) : args :=
  {| text_dir := Some text_root; collection := lectio_corpus; batch_size := B |}.

Definition v4 : floats := [1%float; 0%float; 0%float; 2%float].

(** An embedding model of dimension 4. *)
Definition model (prompt : str) : reply := Reply 200 (EmbeddingField v4).

Definition point (i : nat) : PointStruct :=
  mk_point i (of_string "a.txt", i, long_paragraph) v4.

(** A store that already holds three points of dimension 4. *)
Definition stored : MemStore.state :=
  {[ lectio_corpus := {| MemStore.params_size := 4;
                         MemStore.points := [point 0; point 1; point 2] |} ]}.

(** A store that cannot be reached when the collection is looked up. *)
Definition unreachable : services unit :=
  {| post_embeddings := fun prompt s => (model prompt, s);
     get_collection := fun _ s => (inl ResponseHandlingException, s);
     recreate_collection := fun _ _ s => (inr tt, s);
     upsert := fun _ _ s => (inr tt, s) |}.

(** The search service against an embedding model of dimension 4 and a
    store that finds [found]. *)
Definition search_services (found : exn + list Backend.ScoredPoint)
    : Backend.services unit :=
  Backend.constant_services (model []) found.

(** A point as the indexing script stores it. *)
Definition good_point : Backend.ScoredPoint :=
  {| Backend.point_score := 1%float;
     Backend.point_payload :=
       Some {[ of_string "file" := Backend.py_text (of_string "a.txt");
               of_string "paragraph_index" := Backend.py_of_int 3;
               of_string "text" := Backend.py_text long_paragraph ]} |}.

(** A point without payload. *)
Definition bare_point : Backend.ScoredPoint :=
  {| Backend.point_score := 1%float; Backend.point_payload := None |}.

(** A point whose [paragraph_index] is stored as [null]. *)
Definition null_index_point : Backend.ScoredPoint :=
  {| Backend.point_score := 1%float;
     Backend.point_payload :=
       Some {[ of_string "file" := Backend.py_text (of_string "a.txt");
               of_string "paragraph_index" := Backend.py_None ]} |}.

Definition hello (k : Z) : Backend.SearchRequest :=
  {| Backend.query := of_string "hello"; Backend.top_k := k |}.

Definition padded_hello (k : Z) : Backend.SearchRequest :=
  {| Backend.query := of_string "  hello
"; Backend.top_k := k |}.

Definition blank : Backend.SearchRequest :=
  {| Backend.query := of_string "
   "; Backend.top_k := 5 |}.

End Sample.

(** ** Notions used to compare the two scans of a body *)

(** [s] starts with a line break. *)
Definition starts_lf (s : str) : bool :=
  match s with c :: _ => (c =? LF)%N | [] => false end.

(** What survives trimming and the length filter. *)
Definition keep (ps : list str) : list str :=
  List.filter long_enough (map strip ps).

(** The specification's segments from a scan in progress: [g] the lines of
    the segment being read, [l] the line being read (reversed). *)
Definition segments_from (g : list str) (l : str) (s : str) : list str :=
  map (join [LF]) (BlankLine.group_lines g (split_from [LF] 0 l s)).

(** The piece the code is reading is the segment in progress, possibly
    after one line break left over from an odd run. *)
Definition agree (x t : str) : Prop := x = t \/ x = LF :: t.

Definition related (a : str) (g : list str) (l : str) (s : str) : Prop :=
  agree (rev a) (join [LF] (g ++ [rev l]))
  /\ (starts_lf s = true -> match a with c :: _ => c <> LF | [] => True end).

(** ** Text extraction ([python/extract_source_text.py]) *)

Module Extract.

Definition CR : char := 13%N.

(** [s.replace(old, new)] for a non-empty [old]: every occurrence of [old],
    scanning left to right, occurrences not overlapping, becomes [new].
    [skip] counts the code points of an occurrence just replaced that are
    still to be passed over. *)
Fixpoint replace_from (old new : str) (skip : nat) (s : str) : str :=
  match s with
  | [] => []
  | c :: s' =>
      match skip with
      | S k => replace_from old new k s'
      | O =>
          if starts_with old s
          then new ++ replace_from old new (length old - 1) s'
          else c :: replace_from old new 0 s'
      end
  end.

Definition replace (old new : str) (s : str) : str := replace_from old new 0 s.

(** The "basic cleanup" of [main]:
    [text.replace("\r\n", "\n").replace("\r", "\n")] *)
Definition cleanup (text : str) : str :=
  replace [CR] [LF] (replace [CR; LF] [LF] text).

(** Line breaks made uniform in one pass: a carriage return with the line
    feed that follows it, or a carriage return alone, is one line feed. *)
Fixpoint universal_newlines (s : str) : str :=
  match s with
  | [] => []
  | c :: s' =>
      if (c =? CR)%N
      then LF :: match s' with
                 | d :: s'' => if (d =? LF)%N then universal_newlines s''
                               else universal_newlines s'
                 | [] => []
                 end
      else c :: universal_newlines s'
  end.

(** [extract_pdf]: [pages] are the texts [page.get_text("text")] of the
    pages of the opened document, in order. *)
Definition extract_pdf (pages : list str) : str := join [LF; LF] pages.

(** An item of an EPUB book, as [extract_epub] reads it: whether
    [item.get_type() == epub.EpubHtml] holds, and the text
    [soup.get_text(separator=" ", strip=True)] of its content. *)
Record item := { type_is_EpubHtml : bool; soup_text : str }.

(** The list [chunks] that the loop of [extract_epub] builds. *)
Fixpoint epub_chunks (items : list item) : list str :=
  match items with
  | [] => []
  | it :: items' =>
      if type_is_EpubHtml it
      then if is_empty (soup_text it)
           then epub_chunks items'
           else soup_text it :: epub_chunks items'
      else epub_chunks items'
  end.

Definition extract_epub (items : list item) : str :=
  join [LF; LF] (epub_chunks items).

(** Exceptions of the extraction libraries and of the file system. *)
Inductive error :=
| FileDataError           (* fitz: the file cannot be opened as a document *)
| EpubException           (* ebooklib: the file cannot be read as a book *)
| CalledProcessError      (* [ebook-convert] ended with a non-zero status *)
| FileNotFoundError       (* [ebook-convert] is not on the path *)
| OSError                 (* the file system refuses *)
| UnicodeEncodeError.     (* [write_text]: the text cannot be encoded *)

(** A path found by [args.raw_dir.rglob("*")], with what the script reads
    off it and what the libraries make of the file. *)
Record source := {
  path_of : path;
  is_file : bool;
  suffix_lower : str;                         (* [path.suffix.lower()] *)
  out_path : path;                            (* [args.out_dir / rel.with_suffix(".txt")] *)
  parent_mkdir : error + unit;                (* [out_path.parent.mkdir(...)] *)
  fitz_pages : error + list str;              (* [fitz.open(path)] and its pages *)
  epub_items : error + list item;             (* [epub.read_epub(str(path))] and its items *)
  converted_items : error + list item;        (* [ebook-convert], then [read_epub] of the result *)
  write_text : str -> error + unit            (* [out_path.write_text(text, encoding="utf-8")] *)
}.

Inductive event :=
| PrintExtracting (p out : path)
| PrintFailed (p : path) (e : error)
| Write (out : path) (text : str) (r : error + unit).

Definition supported_exts : list str :=
  [of_string ".pdf"; of_string ".epub"; of_string ".mobi"].

Definition str_eqb (a b : str) : bool := bool_decide (a = b).

Definition supported (suffix : str) : bool := existsb (str_eqb suffix) supported_exts.

(** [extract_mobi(path, tmp_dir)]: convert, then [extract_epub]. *)
Definition extract_mobi (src : source) : error + str :=
  match converted_items src with
  | inl e => inl e
  | inr items => inr (extract_epub items)
  end.

(** The [if]/[elif] chain of the [try] block; [None] is its
    [else: continue]. *)
Definition extract (src : source) : error + option str :=
  if str_eqb (suffix_lower src) (of_string ".pdf")
  then match fitz_pages src with
       | inl e => inl e
       | inr pages => inr (Some (extract_pdf pages))
       end
  else if str_eqb (suffix_lower src) (of_string ".epub")
  then match epub_items src with
       | inl e => inl e
       | inr items => inr (Some (extract_epub items))
       end
  else if str_eqb (suffix_lower src) (of_string ".mobi")
  then match extract_mobi src with
       | inl e => inl e
       | inr text => inr (Some text)
       end
  else inr None.

(** One iteration of the loop of [main]: the events it adds, and the
    exception that leaves it, if any (only the [mkdir] before the [try]). *)
Definition process (src : source) : list event * (error + unit) :=
  if negb (is_file src) then ([], inr tt)
  else if negb (supported (suffix_lower src)) then ([], inr tt)
  else
    match parent_mkdir src with
    | inl e => ([], inl e)
    | inr _ =>
        let started := [PrintExtracting (path_of src) (out_path src)] in
        match extract src with
        | inl e => (started ++ [PrintFailed (path_of src) e], inr tt)
        | inr None => (started, inr tt)
        | inr (Some text) =>
            let text := cleanup text in
            match write_text src text with
            | inl e =>
                (started ++ [Write (out_path src) text (inl e);
                             PrintFailed (path_of src) e], inr tt)
            | inr _ => (started ++ [Write (out_path src) text (inr tt)], inr tt)
            end
        end
    end.

(** The loop of [main] over what [rglob] finds. *)
Fixpoint main_loop (raw_dir : list source) : list event * (error + unit) :=
  match raw_dir with
  | [] => ([], inr tt)
  | src :: rest =>
      match process src with
      | (evs, inl e) => (evs, inl e)
      | (evs, inr _) =>
          let (evs', r) := main_loop rest in (evs ++ evs', r)
      end
  end.

(** [main()]: [dirs] is the outcome of creating the output and temporary
    directories. *)
Definition main (dirs : error + unit) (raw_dir : list source) : list event * (error + unit) :=
  match dirs with
  | inl e => ([], inl e)
  | inr _ => main_loop raw_dir
  end.

(** The texts written with success, with their paths, in order. *)
Definition written (tr : list event) : list (path * str) :=
  flat_map (fun e => match e with Write out text (inr _) => [(out, text)] | _ => [] end) tr.

(** The texts passed to [write_text], whatever the outcome. *)
Definition write_attempts (tr : list event) : list str :=
  flat_map (fun e => match e with Write _ text _ => [text] | _ => [] end) tr.

(** [src] is a file of a supported kind whose text is extracted and written. *)
Definition extracted (src : source) : option (path * str) :=
  if is_file src && supported (suffix_lower src)
  then match extract src with
       | inr (Some text) =>
           match write_text src (cleanup text) with
           | inr _ => Some (out_path src, cleanup text)
           | inl _ => None
           end
       | _ => None
       end
  else None.

End Extract.

(** ** Further notions for the indexing script *)

Module IndexerMore.

Import Indexer.

(** A call to the vector store. *)
Definition is_store_call (e : event) : bool :=
  match e with
  | GetCollection _ _ | RecreateCollection _ _ _ | Upsert _ _ _ => true
  | _ => false
  end.

(** The payload the loop builds for a chunk. *)
Definition chunk_payload (c : path * nat * str) : Payload :=
  {| file := fst (fst c); paragraph_index := snd (fst c); text := snd c |}.

End IndexerMore.

(** ** Further notions for the search service and for chunks *)

Module BackendMore.

(** The embedding in a reply, if the exchange gives one: the POST was
    answered, with a status that [raise_for_status] accepts and a body that
    has the field. *)
Definition usable (rep : reply) : option floats :=
  match rep with
  | Reply status (EmbeddingField v) =>
      match raise_for_status status with
      | inr _ => Some v
      | inl _ => None
      end
  | _ => None
  end.

(** [session.post] raises a FastAPI [HTTPException] (the [requests]
    library never does). *)
Definition raises_http (rep : reply) : bool :=
  match rep with
  | NoReply (HTTPException _ _) => true
  | _ => false
  end.

End BackendMore.

(** [p] has an empty line inside: two line breaks in a row. *)
Definition blank_line_inside (p : str) : Prop :=
  exists u v, p = u ++ LF :: LF :: v.

(** [p] is a part of [body], as it stands there. *)
Definition verbatim_in (p body : str) : Prop :=
  exists before after, body = before ++ p ++ after.

(** ** More sample inputs *)

Module MoreSamples.

Import Indexer.

(** An embedding service that answers twice and is then out of reach; the
    state counts the requests.  The store holds no collection at first and
    accepts every write. *)
Definition flaky : services nat :=
  {| post_embeddings := fun prompt n =>
       (if (n <? 2)%nat then Sample.model prompt else NoReply ConnectionError,
        Datatypes.S n);
     get_collection := fun _ n => (inl (UnexpectedResponse 404), n);
     recreate_collection := fun _ _ n => (inr tt, n);
     upsert := fun _ _ n => (inr tt, n) |}.

(** An embedding service that answers every request with status 500. *)
Definition down : services unit :=
  {| post_embeddings := fun _ s => (Reply 500 NotJSON, s);
     get_collection := fun _ s => (inl (UnexpectedResponse 404), s);
     recreate_collection := fun _ _ s => (inr tt, s);
     upsert := fun _ _ s => (inr tt, s) |}.

(** A store whose [recreate_collection] fails the first time and works
    the second time; the state counts the attempts. *)
Definition stubborn : services nat :=
  {| post_embeddings := fun prompt n => (Sample.model prompt, n);
     get_collection := fun _ n =>
       (inr {| vectors_count := Some 7; size := 4 |}, n);
     recreate_collection := fun _ _ n =>
       (if (n =? 0)%nat then inl (UnexpectedResponse 500) else inr tt, Datatypes.S n);
     upsert := fun _ _ n => (inr tt, n) |}.

(** A PDF of two pages with carriage returns, a broken EPUB, a directory,
    a file of another kind, and a MOBI that cannot be converted. *)
Definition two_pages : list str :=
  [Sample.long_paragraph ++ [Extract.CR; LF] ++ of_string "Short." ++ [Extract.CR];
   Sample.long_paragraph].

Definition no_library (kind : str) (p out : str) : Extract.source :=
  {| Extract.path_of := p;
     Extract.is_file := true;
     Extract.suffix_lower := kind;
     Extract.out_path := out;
     Extract.parent_mkdir := inr tt;
     Extract.fitz_pages := inl Extract.FileDataError;
     Extract.epub_items := inl Extract.EpubException;
     Extract.converted_items := inl Extract.CalledProcessError;
     Extract.write_text := fun _ => inr tt |}.

Definition pdf_source : Extract.source :=
  {| Extract.path_of := of_string "book.PDF";
     Extract.is_file := true;
     Extract.suffix_lower := of_string ".pdf";
     Extract.out_path := of_string "book.txt";
     Extract.parent_mkdir := inr tt;
     Extract.fitz_pages := inr two_pages;
     Extract.epub_items := inl Extract.EpubException;
     Extract.converted_items := inl Extract.CalledProcessError;
     Extract.write_text := fun _ => inr tt |}.

Definition raw_dir : list Extract.source :=
  [no_library (of_string ".epub") (of_string "broken.epub") (of_string "broken.txt");
   {| Extract.path_of := of_string "sub";
      Extract.is_file := false;
      Extract.suffix_lower := [];
      Extract.out_path := of_string "sub.txt";
      Extract.parent_mkdir := inr tt;
      Extract.fitz_pages := inl Extract.FileDataError;
      Extract.epub_items := inl Extract.EpubException;
      Extract.converted_items := inl Extract.CalledProcessError;
      Extract.write_text := fun _ => inr tt |};
   no_library (of_string ".docx") (of_string "notes.docx") (of_string "notes.txt");
   pdf_source;
   no_library (of_string ".mobi") (of_string "old.mobi") (of_string "old.txt")].

(** The store returns two points for a request that asks for one. *)
Definition generous : Backend.services unit :=
  Sample.search_services (inr [Sample.good_point; Sample.bare_point]).

(** An embedding service that answers with status 503. *)
Definition unavailable : Backend.services unit :=
  Backend.constant_services (Reply 503 NotJSON) (inr [Sample.good_point]).

End MoreSamples.

(** * Properties *)

(** ** Paragraph extraction *)

Example sample_body_chunks :
  file_paragraphs sample_body =
  [(0%nat, of_string "This is a sufficiently long paragraph exceeding forty characters for retention.")].
Proof. vm_compute. reflexivity. Qed.

Example split_odd_run :
  split [LF; LF] (of_string "a


b") = [of_string "a"; LF :: of_string "b"].
Proof. vm_compute. reflexivity. Qed.

Example segments_odd_run :
  BlankLine.segments (of_string "a


b

c
d
") = [of_string "a"; of_string "b"; of_string "c
d"].
Proof. vm_compute. reflexivity. Qed.

(** A line of white space is not fully empty: it separates nothing. *)
Example blank_but_not_empty_line :
  split [LF; LF] (of_string "a
 
b") = [of_string "a
 
b"]
  /\ BlankLine.segments (of_string "a
 
b") = [of_string "a
 
b"].
Proof. split; vm_compute; reflexivity. Qed.

(** Forty code points are not enough, forty-one are. *)
Example threshold_forty :
  file_paragraphs (repeat 120%N 40) = []
  /\ file_paragraphs (repeat 120%N 40 ++ [LF; LF] ++ repeat 121%N 41)
     = [(0%nat, repeat 121%N 41)].
Proof. split; vm_compute; reflexivity. Qed.

Section StripFacts.

Lemma lstrip_app_space (s : str) (c : char) :
  isspace c = true -> lstrip s = [] -> lstrip (s ++ [c]) = [].
Proof.
  intros Hc. induction s as [|d s IH]; simpl.
  - now rewrite Hc.
  - destruct (isspace d); [exact IH | discriminate].
Qed.

Lemma lstrip_app_keep (s t : str) :
  lstrip s <> [] -> lstrip (s ++ t) = lstrip s ++ t.
Proof.
  induction s as [|d s IH]; simpl; [congruence|].
  destruct (isspace d); [exact IH | reflexivity].
Qed.

Lemma lstrip_idem (s : str) : lstrip (lstrip s) = lstrip s.
Proof.
  induction s as [|d s IH]; simpl; [reflexivity|].
  destruct (isspace d) eqn:E; [exact IH | simpl; now rewrite E].
Qed.

Lemma lstrip_cons_space (c : char) (s : str) :
  isspace c = true -> lstrip (c :: s) = lstrip s.
Proof. intros H. simpl. now rewrite H. Qed.

Lemma rstrip_snoc_space (s : str) (c : char) :
  isspace c = true -> rstrip (s ++ [c]) = rstrip s.
Proof.
  intros H. unfold rstrip. rewrite rev_app_distr. simpl. now rewrite H.
Qed.

(** [rstrip] keeps a leading code point that is not white space. *)
Lemma rstrip_cons_keep (c : char) (s : str) :
  isspace c = false -> exists s', rstrip (c :: s) = c :: s'.
Proof.
  intros H. unfold rstrip. simpl rev.
  destruct (lstrip (rev s)) as [|d u] eqn:E.
  - exists []. 
    assert (lstrip (rev s ++ [c]) = [c]) as ->; [|reflexivity].
    clear -E H. induction (rev s) as [|x r IH]; simpl in *.
    + now rewrite H.
    + destruct (isspace x); [auto | discriminate].
  - rewrite lstrip_app_keep by (rewrite E; discriminate).
    rewrite E, rev_app_distr. simpl. eauto.
Qed.

Lemma strip_cons_space (c : char) (s : str) :
  isspace c = true -> strip (c :: s) = strip s.
Proof. intros H. unfold strip. now rewrite lstrip_cons_space. Qed.

Lemma strip_snoc_space (s : str) (c : char) :
  isspace c = true -> strip (s ++ [c]) = strip s.
Proof.
  intros H. unfold strip.
  destruct (lstrip s) as [|d u] eqn:E.
  - now rewrite lstrip_app_space.
  - rewrite lstrip_app_keep by (rewrite E; discriminate).
    rewrite E. now apply rstrip_snoc_space.
Qed.

Lemma lstrip_head (s : str) :
  lstrip s = [] \/ exists c u, lstrip s = c :: u /\ isspace c = false.
Proof.
  induction s as [|d s IH]; simpl; [now left|].
  destruct (isspace d) eqn:E; [exact IH | right; eauto].
Qed.

Lemma rstrip_idem (s : str) : rstrip (rstrip s) = rstrip s.
Proof. unfold rstrip. now rewrite rev_involutive, lstrip_idem. Qed.

Lemma strip_idem (s : str) : strip (strip s) = strip s.
Proof.
  unfold strip.
  destruct (lstrip_head s) as [E | (c & u & E & Hc)]; rewrite E.
  - reflexivity.
  - destruct (rstrip_cons_keep c u Hc) as [s' Hs'].
    rewrite Hs'. simpl lstrip. rewrite Hc, <- Hs'. apply rstrip_idem.
Qed.

End StripFacts.

(** *** The two scans of a body, one code point at a time *)

Section SplitFacts.

Lemma split2_nil a : split_from [LF; LF] 0 a [] = [rev a].
Proof. reflexivity. Qed.

Lemma split2_cut a s :
  split_from [LF; LF] 0 a (LF :: LF :: s) = rev a :: split_from [LF; LF] 0 [] s.
Proof. reflexivity. Qed.

Lemma split2_other a c s :
  c <> LF -> split_from [LF; LF] 0 a (c :: s) = split_from [LF; LF] 0 (c :: a) s.
Proof.
  intros Hc. cbn [split_from starts_with].
  destruct (N.eqb_spec LF c) as [E|E]; [congruence | reflexivity].
Qed.

Lemma split2_lone a s :
  starts_lf s = false ->
  split_from [LF; LF] 0 a (LF :: s) = split_from [LF; LF] 0 (LF :: a) s.
Proof.
  intros Hs. destruct s as [|d s]; [reflexivity|].
  cbn [split_from starts_with]. simpl in Hs.
  rewrite (N.eqb_sym LF d), Hs. reflexivity.
Qed.

Lemma split1_nil l : split_from [LF] 0 l [] = [rev l].
Proof. reflexivity. Qed.

Lemma split1_cut l s :
  split_from [LF] 0 l (LF :: s) = rev l :: split_from [LF] 0 [] s.
Proof. reflexivity. Qed.

Lemma split1_other l c s :
  c <> LF -> split_from [LF] 0 l (c :: s) = split_from [LF] 0 (c :: l) s.
Proof.
  intros Hc. cbn [split_from starts_with].
  destruct (N.eqb_spec LF c) as [E|E]; [congruence | reflexivity].
Qed.

Lemma join_snoc (sep : str) (g : list str) (x : str) :
  g <> [] -> join sep (g ++ [x]) = join sep g ++ sep ++ x.
Proof.
  induction g as [|p g IH]; [congruence|]. intros _.
  destruct g as [|q g]; [reflexivity|].
  change (join sep ((p :: q :: g) ++ [x])) with (p ++ sep ++ join sep ((q :: g) ++ [x])).
  rewrite IH by discriminate.
  change (join sep (p :: q :: g)) with (p ++ sep ++ join sep (q :: g)).
  now rewrite <- !app_assoc.
Qed.

Lemma join_snoc_grow (sep : str) (g : list str) (x : str) (c : char) :
  join sep (g ++ [x ++ [c]]) = join sep (g ++ [x]) ++ [c].
Proof.
  destruct g as [|p g]; [reflexivity|].
  rewrite !join_snoc by discriminate. now rewrite <- !app_assoc.
Qed.

End SplitFacts.

Section ScanAgreement.

Import BlankLine.

Lemma isspace_LF : isspace LF = true.
Proof. reflexivity. Qed.

Lemma agree_strip x t : agree x t -> strip x = strip t.
Proof.
  intros [-> | ->]; [reflexivity | apply strip_cons_space, isspace_LF].
Qed.

Lemma agree_snoc x t c : agree x t -> agree (x ++ [c]) (t ++ [c]).
Proof. intros [-> | ->]; [left | right]; reflexivity. Qed.

Lemma keep_cons_agree x t ps qs :
  strip x = strip t -> keep ps = keep qs -> keep (x :: ps) = keep (t :: qs).
Proof. unfold keep. simpl. intros -> ->. reflexivity. Qed.

Lemma keep_blank x ps : strip x = [] -> keep (x :: ps) = keep ps.
Proof. unfold keep. simpl. intros ->. reflexivity. Qed.

(** At a line break that the code has not consumed, with the current line
    empty, neither scan has anything in progress. *)
Lemma related_at_break a g s :
  related a g [] (LF :: s) -> a = [] /\ g = [].
Proof.
  intros [Hag Hhd]. specialize (Hhd eq_refl). simpl rev in Hag.
  destruct g as [|p g].
  - split; [|reflexivity]. simpl in Hag.
    destruct Hag as [H | H].
    + destruct a; [reflexivity|]. simpl in H. now destruct (rev a).
    + destruct a as [|c a]; [reflexivity|]. exfalso.
      assert (rev (rev (c :: a)) = rev [LF]) as H' by now rewrite H.
      rewrite rev_involutive in H'. simpl in H'. congruence.
  - exfalso. rewrite join_snoc in Hag by discriminate.
    rewrite app_nil_r in Hag.
    destruct a as [|c a].
    + destruct Hag as [H | H]; simpl in H.
      * symmetry in H. apply app_eq_nil in H as [_ H]. discriminate.
      * discriminate.
    + assert (exists u, rev (c :: a) = u ++ [LF]) as [u Hu].
      { destruct Hag as [-> | ->]; [eexists; reflexivity|].
        exists (LF :: join [LF] (p :: g)). reflexivity. }
      simpl in Hu. apply app_inj_tail in Hu as [_ ->]. congruence.
Qed.

Lemma close_snoc (g : list str) (x : str) : close (g ++ [x]) = [g ++ [x]].
Proof. now destruct g. Qed.

Lemma scans_agree (n : nat) :
  forall s a g l, (length s <= n)%nat -> related a g l s ->
    keep (split_from [LF; LF] 0 a s) = keep (segments_from g l s).
Proof.
  induction n as [|n IH]; intros s a g l Hlen Hrel.
  - destruct s; [|simpl in Hlen; lia].
    destruct Hrel as [Hag _]. unfold segments_from.
    rewrite split2_nil, split1_nil. cbn [group_lines].
    destruct l as [|c l].
    + simpl rev in *. cbn [fully_empty]. rewrite app_nil_r.
      destruct g as [|p g].
      * simpl in *. apply keep_blank.
        destruct Hag as [-> | ->]; reflexivity.
      * cbn [close map]. apply keep_cons_agree; [|reflexivity].
        rewrite (agree_strip _ _ Hag), join_snoc by discriminate.
        rewrite app_nil_r. apply strip_snoc_space, isspace_LF.
    + assert (fully_empty (rev (c :: l)) = false) as ->.
      { simpl. now destruct (rev l). }
      rewrite close_snoc.
      cbn [map]. apply keep_cons_agree; [now apply agree_strip | reflexivity].
  - destruct s as [|c s]; [apply (IH [] a g l); [simpl; lia | exact Hrel]|].
    simpl in Hlen.
    destruct (N.eq_dec c LF) as [-> | Hc].
    + (* a line break *)
      destruct (starts_lf s) eqn:Hs.
      * (* a separator: the code cuts here *)
        destruct s as [|d s]; [discriminate|]. simpl in Hs.
        apply N.eqb_eq in Hs. subst d. simpl in Hlen.
        rewrite split2_cut. unfold segments_from.
        rewrite !split1_cut. cbn [group_lines fully_empty].
        destruct l as [|c l].
        -- destruct (related_at_break _ _ _ Hrel) as [-> ->].
           cbn [rev fully_empty close app].
           rewrite keep_blank by reflexivity.
           apply (IH s [] [] []); [lia|]. split; [now left | trivial].
        -- assert (fully_empty (rev (c :: l)) = false) as ->.
           { simpl. now destruct (rev l). }
           rewrite close_snoc.
           cbn [app map]. destruct Hrel as [Hag _].
           apply keep_cons_agree; [now apply agree_strip|].
           apply (IH s [] [] []); [lia|]. split; [now left | trivial].
      * (* a lone line break stays inside the piece *)
        rewrite split2_lone by exact Hs. unfold segments_from.
        rewrite split1_cut. cbn [group_lines].
        destruct l as [|c l].
        -- destruct (related_at_break _ _ _ Hrel) as [-> ->].
           cbn [rev fully_empty close app].
           apply (IH s [LF] [] []); [lia|]. split; [now right|].
           rewrite Hs. discriminate.
        -- assert (fully_empty (rev (c :: l)) = false) as ->.
           { simpl. now destruct (rev l). }
           apply (IH s (LF :: a) (g ++ [rev (c :: l)]) []); [lia|].
           destruct Hrel as [Hag _]. split; [|rewrite Hs; discriminate].
           rewrite join_snoc by now destruct g.
           rewrite app_nil_r. simpl rev at 1. now apply agree_snoc.
    + rewrite split2_other by exact Hc. unfold segments_from.
      rewrite split1_other by exact Hc.
      apply (IH s (c :: a) g (c :: l)); [lia|].
      destruct Hrel as [Hag _]. split; [|intros _; exact Hc].
      simpl rev. rewrite join_snoc_grow. now apply agree_snoc.
Qed.

End ScanAgreement.

Lemma enumerate_from_fst {A} (l : list A) (i : nat) :
  map fst (enumerate_from i l) = seq i (length l).
Proof.
  revert i. induction l as [|x l IH]; intros i; simpl; [reflexivity|].
  now rewrite IH.
Qed.

Lemma enumerate_from_length {A} (l : list A) (i : nat) :
  length (enumerate_from i l) = length l.
Proof.
  revert i. induction l as [|x l IH]; intros i; simpl; [reflexivity|].
  now rewrite IH.
Qed.

Lemma enumerate_from_snd {A} (l : list A) (i : nat) :
  map snd (enumerate_from i l) = l.
Proof.
  revert i. induction l as [|x l IH]; intros i; simpl; [reflexivity|].
  now rewrite IH.
Qed.

Lemma paragraphs_trimmed_long (text : str) :
  Forall (fun p => strip p = p /\ 40 < len p) (paragraphs text).
Proof.
  unfold paragraphs, raw_paragraphs. apply List.Forall_forall. intros p Hp.
  apply filter_In in Hp as [Hin Hlong]. apply in_map_iff in Hin as (q & <- & _).
  split; [apply strip_idem | now apply Z.ltb_lt].
Qed.

(** *** The specification's scan and the functions of the code *)

Section SpecificationScan.

Import BlankLine.

Lemma lines_from_split (s : str) :
  forall l, lines_from (rev l) s = split_from [LF] 0 l s.
Proof.
  induction s as [|c s IH]; intros l; [reflexivity|].
  cbn [lines_from]. destruct (N.eqb_spec c line_feed) as [-> | Hc].
  - change line_feed with LF. rewrite split1_cut. f_equal. apply (IH []).
  - rewrite split1_other by exact Hc. apply (IH (c :: l)).
Qed.

Lemma unlines_join (ls : list str) : unlines ls = join [LF] ls.
Proof.
  induction ls as [|l ls IH]; [reflexivity|].
  destruct ls as [|l' ls]; [reflexivity|].
  change (unlines (l :: l' :: ls)) with (l ++ line_feed :: unlines (l' :: ls)).
  change (join [LF] (l :: l' :: ls)) with (l ++ [LF] ++ join [LF] (l' :: ls)).
  now rewrite IH.
Qed.

Lemma segments_from_start (body : str) : segments body = segments_from [] [] body.
Proof.
  unfold segments, segments_from, lines.
  rewrite <- (lines_from_split body []). apply map_ext, unlines_join.
Qed.

(** The table of white space and the ranges of [isspace] are the same set. *)
Lemma whitespace_isspace (c : char) : whitespace c = isspace c.
Proof.
  unfold whitespace, white_space. cbn [existsb].
  repeat match goal with
         | |- context [(c =? ?k)%N] =>
             destruct (N.eqb_spec c k) as [-> | ?]; [reflexivity|]
         end.
  cbn [orb]. symmetry. apply Bool.not_true_is_false. unfold isspace.
  rewrite !Bool.orb_true_iff, !Bool.andb_true_iff, !N.leb_le, !N.eqb_eq. lia.
Qed.

Lemma drop_leading_lstrip (s : str) : drop_leading s = lstrip s.
Proof.
  induction s as [|c s IH]; [reflexivity|].
  cbn [drop_leading lstrip]. rewrite whitespace_isspace, IH. reflexivity.
Qed.

Lemma lstrip_app_blank (r t : str) : lstrip r = [] -> lstrip (r ++ t) = lstrip t.
Proof.
  induction r as [|d r IH]; [reflexivity|]. cbn [lstrip app].
  destruct (isspace d); [exact IH | discriminate].
Qed.

(** [rstrip], read from the front of the text. *)
Lemma rstrip_cons (c : char) (s : str) :
  rstrip (c :: s)
  = match rstrip s with
    | [] => if isspace c then [] else [c]
    | t => c :: t
    end.
Proof.
  unfold rstrip. cbn [rev]. destruct (lstrip (rev s)) as [|d u] eqn:E.
  - rewrite lstrip_app_blank by exact E. cbn [lstrip rev].
    now destruct (isspace c).
  - rewrite lstrip_app_keep by (rewrite E; discriminate).
    rewrite E, rev_app_distr. cbn [rev app].
    now destruct (rev u).
Qed.

Lemma drop_trailing_rstrip (s : str) : drop_trailing s = rstrip s.
Proof.
  induction s as [|c s IH]; [reflexivity|].
  cbn [drop_trailing]. now rewrite IH, rstrip_cons, whitespace_isspace.
Qed.

Lemma trim_strip (s : str) : trim s = strip s.
Proof. unfold trim, strip. now rewrite drop_leading_lstrip, drop_trailing_rstrip. Qed.

Lemma retained_keep (body : str) : retained body = keep (segments_from [] [] body).
Proof.
  unfold retained, keep. rewrite segments_from_start, (map_ext trim strip trim_strip).
  apply filter_ext. intros p. unfold long_enough, len.
  destruct (Nat.leb_spec (length p) 40), (Z.ltb_spec 40 (Z.of_nat (length p)));
    cbn [negb]; try reflexivity; lia.
Qed.

Lemma paragraphs_retained (body : str) : paragraphs body = retained body.
Proof.
  rewrite retained_keep.
  apply (scans_agree (length body)); [lia|]. split; [now left | trivial].
Qed.

End SpecificationScan.

(** C4. For every text body, the texts of the chunks the extractor yields
    are, in document order, the segments between blank-line separators
    (runs of one or more fully empty lines), trimmed, without those of
    trimmed length at most 40; every chunk has trimmed length above 40; and
    the ordinals are exactly 0..n-1, [n] the number of retained segments. *)
Theorem file_paragraphs_blank_line_chunks (body : str) :
  map snd (file_paragraphs body) = BlankLine.retained body
  /\ Forall (fun ip => (40 < length (BlankLine.trim (snd ip)))%nat) (file_paragraphs body)
  /\ map fst (file_paragraphs body) = seq 0 (length (BlankLine.retained body)).
Proof.
  pose proof (paragraphs_retained body) as Hp.
  split; [|split].
  - unfold file_paragraphs, enumerate. now rewrite enumerate_from_snd.
  - unfold file_paragraphs, enumerate. apply List.Forall_forall. intros [i p] Hin.
    assert (In p (paragraphs body)) as Hin'.
    { rewrite <- (enumerate_from_snd (paragraphs body) 0).
      apply in_map_iff. exists (i, p). auto. }
    pose proof (paragraphs_trimmed_long body) as H.
    rewrite List.Forall_forall in H. destruct (H p Hin') as [Hs Hl].
    cbn [snd]. rewrite trim_strip, Hs. unfold len in Hl. lia.
  - unfold file_paragraphs, enumerate. now rewrite enumerate_from_fst, Hp.
Qed.

(** The chunks of a body with white space round its paragraphs, an odd run
    of line feeds, a short segment and a line of spaces inside a
    paragraph. *)
Lemma file_paragraphs_blank_line_chunks_witness :
  map snd (file_paragraphs ragged_body) = [first_paragraph; second_paragraph]
  /\ map fst (file_paragraphs ragged_body) = [0%nat; 1%nat].
Proof.
  destruct (file_paragraphs_blank_line_chunks ragged_body) as (Hc & _ & Hi).
  rewrite Hc, Hi. split; vm_compute; reflexivity.
Defined.


(** ** The indexing script *)

Section IndexerRuns.

Import Indexer.

Context {S : Type} (svc : services S).

Local Abbreviation M := (M S event).

Lemma embed_prompts_app t u : embed_prompts (t ++ u) = embed_prompts t ++ embed_prompts u.
Proof. apply flat_map_app. Qed.

Lemma embeddings_app t u : embeddings (t ++ u) = embeddings t ++ embeddings u.
Proof. apply flat_map_app. Qed.

Lemma upserts_app t u : upserts (t ++ u) = upserts t ++ upserts u.
Proof. apply flat_map_app. Qed.

Lemma quiet_projections (evs : list event) :
  forallb is_quiet evs = true ->
  embed_prompts evs = [] /\ embeddings evs = [] /\ upserts evs = [].
Proof.
  induction evs as [|e evs IH]; simpl; [auto|].
  intros H. apply andb_true_iff in H as [He Hevs].
  destruct (IH Hevs) as (H1 & H2 & H3).
  unfold embed_prompts, embeddings, upserts in *. simpl.
  rewrite H1, H2, H3. destruct e; try discriminate; auto.
Qed.

Lemma prints_quiet (ms : list message) : forallb is_quiet (map Print ms) = true.
Proof. induction ms; simpl; auto. Qed.

(** The generator, run to its end, prints its messages and touches no
    service. *)
Lemma count_all_run (g : list step) (w : world S event) :
  count_all g w =
  (inr (length (yields g)), World (store w) (trace w ++ map Print (logs g))).
Proof.
  revert w. induction g as [|[m | p i para] g IH]; intros w.
  - simpl. unfold ret. rewrite app_nil_r. now destruct w.
  - simpl. unfold bind, print, emit. rewrite IH. simpl.
    now rewrite <- app_assoc.
  - simpl. unfold bind. rewrite IH. reflexivity.
Qed.

Lemma next_run (g : list step) (w : world S event) :
  exists ms r,
    next g w = (inr r, World (store w) (trace w ++ map Print ms))
    /\ match r with
       | None => yields g = []
       | Some (c, g') => yields g = c :: yields g'
       end.
Proof.
  revert w. induction g as [|[m | p i para] g IH]; intros w.
  - exists [], None. simpl. unfold ret. rewrite app_nil_r. now destruct w.
  - destruct (IH (World (store w) (trace w ++ [Print m]))) as (ms & r & Hn & Hr).
    exists (m :: ms), r. split; [|exact Hr].
    simpl. unfold bind, print, emit. rewrite Hn. simpl.
    now rewrite <- app_assoc.
  - exists [], (Some ((p, i, para), g)). simpl. unfold ret.
    rewrite app_nil_r. now destruct w.
Qed.

Lemma get_embedding_run (prompt : str) (w : world S event) :
  get_embedding svc prompt w =
  (embedding_result (fst (post_embeddings svc prompt (store w))),
   World (snd (post_embeddings svc prompt (store w)))
         (trace w ++ [Embed prompt (fst (post_embeddings svc prompt (store w)))])).
Proof.
  unfold get_embedding, bind, call.
  destruct (post_embeddings svc prompt (store w)) as [rep s1]. simpl.
  destruct rep as [e | status b]; [reflexivity|]. simpl.
  unfold lift. destruct (raise_for_status status); [reflexivity|].
  unfold ret. destruct (embedding_of_body b); reflexivity.
Qed.


(** [ensure_collection], call by call. *)
Lemma ensure_collection_run (name : str) (dim : Z) (w : world S event) :
  ensure_collection svc name dim w =
  let (r, s1) := get_collection svc name (store w) in
  match r with
  | inl e => (inl e, World s1 (trace w ++ [GetCollection name r]))
  | inr existing =>
      if or_else (vectors_count existing) (size existing) =? dim
      then (inr tt, World s1 (trace w ++ [GetCollection name r;
                                          Print (ReusingCollection name dim)]))
      else
        let (r2, s2) := recreate_collection svc name dim s1 in
        (r2, World s2 (trace w ++ [GetCollection name r;
                                   Print (RecreatingCollection name dim);
                                   RecreateCollection name dim r2]))
  end.
Proof.
  unfold ensure_collection, bind, call.
  destruct (get_collection svc name (store w)) as [[e | existing] s1]; simpl.
  - reflexivity.
  - destruct (or_else (vectors_count existing) (size existing) =? dim).
    + unfold print, emit. simpl. now rewrite <- app_assoc.
    + unfold print, emit. simpl.
      destruct (recreate_collection svc name dim s1) as [[e | []] s2]; simpl;
        now rewrite <- !app_assoc.
Qed.

Lemma ensure_collection_quiet name dim w r w' :
  ensure_collection svc name dim w = (r, w') ->
  exists evs, trace w' = trace w ++ evs /\ forallb is_quiet evs = true.
Proof.
  rewrite ensure_collection_run.
  destruct (get_collection svc name (store w)) as [[e | existing] s1].
  - intros [= <- <-]. eexists. split; [reflexivity | reflexivity].
  - destruct (_ =? dim).
    + intros [= <- <-]. eexists. split; reflexivity.
    + destruct (recreate_collection svc name dim s1) as [r2 s2].
      intros [= <- <-]. eexists. split; reflexivity.
Qed.

Lemma ensuring_collection_quiet a dim w r w' :
  ensuring_collection svc a dim w = (r, w') ->
  exists evs, trace w' = trace w ++ evs /\ forallb is_quiet evs = true.
Proof.
  unfold ensuring_collection, try_except.
  destruct (ensure_collection svc (collection a) dim w) as [[e | []] w1] eqn:He;
    destruct (ensure_collection_quiet _ _ _ _ _ He) as (evs & Ht & Hq).
  - unfold bind, print, emit, call. simpl.
    destruct (recreate_collection svc (collection a) dim (store w1)) as [r2 s2].
    simpl. intros H.
    assert (trace w' = (trace w1 ++ [Print (CreatingCollection (collection a) dim)])
                       ++ [RecreateCollection (collection a) dim r2]) as Hw'.
    { destruct r2 as [e2 | []]; simpl in H; injection H as _ <-; reflexivity. }
    exists (evs ++ [Print (CreatingCollection (collection a) dim);
                    RecreateCollection (collection a) dim r2]).
    split.
    + rewrite Hw', Ht, <- !app_assoc. reflexivity.
    + rewrite forallb_app, Hq. reflexivity.
  - intros [= <- <-]. eauto.
Qed.

Lemma flush_run a buf w r w' :
  flush svc a buf w = (r, w') ->
  exists evs, trace w' = trace w ++ evs
    /\ embed_prompts evs = [] /\ embeddings evs = []
    /\ upserts evs = match buf with [] => [] | _ => [buf] end.
Proof.
  destruct buf as [|p buf]; simpl.
  - intros [= <- <-]. exists []. now rewrite app_nil_r.
  - unfold bind, call, print, emit.
    destruct (upsert svc (collection a) (p :: buf) (store w)) as [[e | []] s1];
      simpl; intros [= <- <-]; simpl.
    + eexists. split; [reflexivity|]. auto.
    + eexists. split; [rewrite <- app_assoc; reflexivity|]. auto.
Qed.

Lemma loop_body_run a c maybe_emb buf pid w r w' :
  loop_body svc a c maybe_emb (buf, pid) w = (r, w') ->
  exists evs, trace w' = trace w ++ evs
    /\ embed_prompts evs = match maybe_emb with None => [snd c] | Some _ => [] end
    /\ match r with
       | inl _ => True
       | inr (buf', pid') =>
           exists emb,
             embeddings evs = match maybe_emb with None => [emb] | Some _ => [] end
             /\ match maybe_emb with None => True | Some e => emb = e end
             /\ pid' = Datatypes.S pid
             /\ let full := buf ++ [mk_point pid c emb] in
                if batch_size a <=? Z.of_nat (length full)
                then upserts evs = [full] /\ buf' = []
                else upserts evs = [] /\ buf' = full
       end.
Proof.
  destruct c as [[p i] para]. unfold loop_body.
  assert (forall emb w0 evs0,
    trace w0 = trace w ++ evs0 ->
    (let buffer := buf ++ [mk_point pid (p, i, para) emb] in
     if batch_size a <=? Z.of_nat (length buffer)
     then bind (call (upsert svc (collection a) buffer) (Upsert (collection a) buffer))
            (fun r0 => bind (lift r0) (fun _ =>
               bind (print (Upserted (length buffer) p)) (fun _ => ret ([], Datatypes.S pid))))
     else ret (buffer, Datatypes.S pid)) w0 = (r, w') ->
    exists evs1, trace w' = trace w ++ evs0 ++ evs1
      /\ embed_prompts evs1 = [] /\ embeddings evs1 = []
      /\ match r with
         | inl _ => True
         | inr (buf', pid') =>
             pid' = Datatypes.S pid
             /\ let full := buf ++ [mk_point pid (p, i, para) emb] in
                if batch_size a <=? Z.of_nat (length full)
                then upserts evs1 = [full] /\ buf' = []
                else upserts evs1 = [] /\ buf' = full
         end) as Hrest.
  { intros emb w0 evs0 Hw0. cbv zeta.
    remember (buf ++ [mk_point pid (p, i, para) emb]) as full eqn:Hfull.
    destruct (batch_size a <=? _) eqn:Hb.
    - unfold bind, call, print, emit, ret.
      destruct (upsert svc (collection a) _ (store w0)) as [[e | []] s1]; simpl;
        intros [= <- <-]; simpl; rewrite Hw0, <- !app_assoc.
      + eexists. split; [reflexivity|]. auto.
      + eexists. split; [reflexivity|]. auto.
    - unfold ret. intros [= <- <-]. exists []. rewrite Hw0, app_nil_r.
      split; [reflexivity|]. auto. }
  destruct maybe_emb as [e|].
  - unfold bind at 1, ret at 1. intros H.
    apply (Hrest e w []) in H; [|now rewrite app_nil_r].
    destruct H as (evs1 & Ht & Hp & He & Hr).
    exists evs1. split; [exact Ht|]. split; [exact Hp|].
    destruct r as [|[buf' pid']]; [trivial|]. exists e. tauto.
  - unfold bind at 1. rewrite get_embedding_run.
    set (rep := fst (post_embeddings svc para (store w))).
    destruct (embedding_result rep) as [e | emb] eqn:Hrep.
    + intros [= <- <-]. simpl. exists [Embed para rep]. auto.
    + intros H.
      apply (Hrest emb _ [Embed para rep]) in H; [|reflexivity].
      destruct H as (evs1 & Ht & Hp & He & Hr).
      exists (Embed para rep :: evs1). split; [exact Ht|].
      split; [unfold embed_prompts in *; simpl; now rewrite Hp|].
      destruct r as [|[buf' pid']]; [trivial|]. exists emb.
      split; [unfold embeddings in *; simpl; now rewrite Hrep, He|].
      split; [trivial|]. destruct Hr as [-> Hr]. split; [reflexivity|].
      cbv zeta in *. destruct (batch_size a <=? _); exact Hr.
Qed.


Lemma batch_step (B b n : Z) :
  1 <= B -> 0 <= b < B -> 0 <= n ->
  (if B <=? b + 1
   then B :: repeat B (Z.to_nat ((0 + n) / B))
   else repeat B (Z.to_nat ((b + 1 + n) / B)))
  = repeat B (Z.to_nat ((b + (n + 1)) / B))
  /\ (if B <=? b + 1 then (0 + n) mod B else (b + 1 + n) mod B)
     = (b + (n + 1)) mod B.
Proof.
  intros HB Hb Hn. destruct (Z.leb_spec B (b + 1)) as [Hle | Hlt].
  - assert (b + (n + 1) = n + 1 * B) as -> by lia.
    rewrite Z.div_add, Z.mod_add by lia. simpl (0 + n).
    assert (0 <= n / B) by (apply Z.div_pos; lia).
    rewrite Z2Nat.inj_add by lia. rewrite Nat.add_comm. auto.
  - assert (b + (n + 1) = b + 1 + n) as -> by lia. auto.
Qed.

Lemma stream_run a g :
  forall buf pid w r w',
    stream svc a g (buf, pid) w = (r, w') ->
    exists evs, trace w' = trace w ++ evs
      /\ (exists k, map snd (yields g) = embed_prompts evs ++ k)
      /\ match r with
         | inl _ => True
         | inr (buf', pid') =>
             embed_prompts evs = map snd (yields g)
             /\ length (embeddings evs) = length (yields g)
             /\ concat (upserts evs) ++ buf'
                = buf ++ mk_points pid (yields g) (embeddings evs)
             /\ (1 <= batch_size a -> Z.of_nat (length buf) < batch_size a ->
                 let total := Z.of_nat (length buf) + Z.of_nat (length (yields g)) in
                 map (fun b => Z.of_nat (length b)) (upserts evs)
                 = repeat (batch_size a) (Z.to_nat (total / batch_size a))
                 /\ Z.of_nat (length buf') = total mod batch_size a)
         end.
Proof.
  induction g as [|[m | p i para] g IH]; intros buf pid w r w'.
  - simpl. intros [= <- <-]. exists []. rewrite !app_nil_r.
    split; [reflexivity|]. split; [exists []; reflexivity|].
    repeat split; try reflexivity.
    + rewrite Z.add_0_r, Z.div_small by lia. reflexivity.
    + rewrite Z.add_0_r, Z.mod_small by lia. reflexivity.
  - simpl. unfold bind at 1, print, emit. intros H.
    apply IH in H as (evs & Ht & Hk & Hr). simpl in Ht.
    exists (Print m :: evs). split; [now rewrite Ht, <- app_assoc|].
    split; [exact Hk|]. exact Hr.
  - cbn [stream]. unfold bind at 1.
    destruct (loop_body svc a (p, i, para) None (buf, pid) w)
      as [[e | [buf1 pid1]] w1] eqn:Hl;
      apply loop_body_run in Hl as (evs1 & Ht1 & Hp1 & Hr1); simpl in Hp1;
      cbn beta iota.
    + intros [= <- <-]. exists evs1. split; [exact Ht1|].
      split; [|trivial]. rewrite Hp1. eexists. reflexivity.
    + intros H. apply IH in H as (evs2 & Ht2 & [k Hk] & Hr2).
      destruct Hr1 as (emb & He1 & _ & -> & Hfull). cbv zeta in Hfull.
      exists (evs1 ++ evs2). split; [now rewrite Ht2, Ht1, <- app_assoc|].
      rewrite embed_prompts_app, Hp1.
      split; [exists k; simpl; now rewrite Hk|].
      destruct r as [|[buf' pid']]; [trivial|].
      destruct Hr2 as (Hp2 & Hl2 & Hpts & Hsz).
      rewrite embeddings_app, upserts_app, He1.
      split; [simpl; now rewrite Hp2|].
      split; [simpl; now rewrite Hl2|].
      split.
      * rewrite concat_app, <- app_assoc, Hpts. simpl mk_points.
        destruct (batch_size a <=? _); destruct Hfull as [-> ->]; simpl;
          rewrite <- ?app_assoc, ?app_nil_r; reflexivity.
      * intros HB Hbuf. cbv zeta.
        rewrite length_app in Hfull. simpl length in Hfull.
        rewrite Nat2Z.inj_add in Hfull.
        change (Z.of_nat 1) with 1 in Hfull.
        destruct (batch_step (batch_size a) (Z.of_nat (length buf))
                    (Z.of_nat (length (yields g))) HB ltac:(lia) ltac:(lia))
          as [Hrep Hmod].
        cbn [yields length]. rewrite Nat2Z.inj_succ, <- Z.add_1_r.
        rewrite <- Hrep, <- Hmod. rewrite map_app.
        revert Hfull.
        destruct (Z.leb_spec (batch_size a) (Z.of_nat (length buf) + 1)) as [Hle | Hlt];
          intros [-> ->].
        -- destruct (Hsz HB ltac:(simpl; lia)) as [-> ->]. simpl.
           rewrite length_app. simpl. split; [f_equal; lia | reflexivity].
        -- assert (Z.of_nat (length (buf ++ [mk_point pid (p, i, para) emb]))
                   = Z.of_nat (length buf) + 1) as Hlen
             by (rewrite length_app; simpl; lia).
           destruct (Hsz HB ltac:(lia)) as [-> ->]. rewrite Hlen. simpl.
           split; reflexivity.
Qed.


Lemma quiet_app (t u : list event) :
  forallb is_quiet t = true -> forallb is_quiet u = true ->
  forallb is_quiet (t ++ u) = true.
Proof. intros Ht Hu. now rewrite forallb_app, Ht, Hu. Qed.

(** A whole run of the script on a corpus, read off its trace. *)
Lemma index_corpus_run a root w r w' :
  index_corpus svc a root w = (r, w') ->
  match chunks root with
  | [] =>
      r = inr tt
      /\ w' = World (store w)
                (trace w ++ map Print (logs (iter_paragraphs root))
                         ++ [Print NoParagraphsFound])
  | _ :: _ =>
      exists evs, trace w' = trace w ++ evs
        /\ (exists k, map snd (chunks root) = embed_prompts evs ++ k)
        /\ (r = inr tt ->
            embed_prompts evs = map snd (chunks root)
            /\ length (embeddings evs) = length (chunks root)
            /\ concat (upserts evs) = mk_points 0 (chunks root) (embeddings evs)
            /\ (1 <= batch_size a ->
                map (fun b => Z.of_nat (length b)) (upserts evs)
                = batch_sizes (Z.of_nat (length (chunks root))) (batch_size a)))
  end.
Proof.
  unfold index_corpus, chunks. unfold bind at 1. rewrite count_all_run.
  destruct (yields (iter_paragraphs root)) as [|c cs] eqn:Hy.
  - cbn. unfold print, emit. cbn. intros [= <- <-].
    now rewrite <- app_assoc.
  - cbn [length Nat.eqb]. unfold bind at 1, print at 1, emit. cbn [store trace].
    unfold bind at 1.
    match goal with |- context [next ?g ?w0] =>
      destruct (next_run g w0) as (ms & first & -> & Hfirst) end.
    rewrite Hy in Hfirst. destruct first as [[[[p i] para] g']|]; [|discriminate].
    injection Hfirst as -> ->. cbn [store trace].
    unfold bind at 1, print at 1, emit. cbn [store trace].
    unfold bind at 1. rewrite get_embedding_run. cbn [store trace].
    match goal with |- context [post_embeddings svc para ?s0] =>
      set (rep := fst (post_embeddings svc para s0));
      set (s1 := snd (post_embeddings svc para s0)) end.
    set (q1 := map Print (logs (iter_paragraphs root))
               ++ [Print (FoundParagraphs (Datatypes.S (length (yields g'))))]
               ++ map Print ms ++ [Print (GettingDimensionFrom p)]).
    assert (forallb is_quiet q1 = true) as Hq1.
    { unfold q1. repeat apply quiet_app; try apply prints_quiet; reflexivity. }
    destruct (quiet_projections _ Hq1) as (Hq1p & Hq1e & Hq1u).
    assert ((((trace w ++ map Print (logs (iter_paragraphs root)))
               ++ [Print (FoundParagraphs (Datatypes.S (length (yields g'))))])
               ++ map Print ms) ++ [Print (GettingDimensionFrom p)]
            = trace w ++ q1) as -> by (unfold q1; now rewrite <- !app_assoc).
    destruct (embedding_result rep) as [e | first_embedding] eqn:Hrep.
    { intros [= <- <-]. cbn [trace].
      exists (q1 ++ [Embed para rep]). split; [now rewrite <- app_assoc|].
      split; [|discriminate].
      rewrite embed_prompts_app, Hq1p. exists (map snd (yields g')). reflexivity. }
    unfold bind at 1, print at 1, emit. cbn [store trace].
    unfold bind at 1.
    match goal with |- context [ensuring_collection svc a ?d ?w0] =>
      destruct (ensuring_collection svc a d w0) as [[e | []] w4] eqn:Hens;
      apply ensuring_collection_quiet in Hens as (q2 & Ht4 & Hq2) end;
      cbn [trace] in Ht4;
      destruct (quiet_projections _ Hq2) as (Hq2p & Hq2e & Hq2u).
    { intros [= <- <-].
      exists (q1 ++ [Embed para rep]
                 ++ [Print (EmbeddingDimension (Z.of_nat (length first_embedding)))]
                 ++ q2).
      split; [rewrite Ht4, <- !app_assoc; reflexivity|].
      split; [|discriminate].
      rewrite !embed_prompts_app, Hq1p, Hq2p. exists (map snd (yields g')). reflexivity. }
    unfold bind at 1.
    destruct (loop_body svc a (p, i, para) (Some first_embedding) ([], 0%nat) w4)
      as [[e | [buf1 pid1]] w5] eqn:Hlb;
      apply loop_body_run in Hlb as (evs5 & Ht5 & Hp5 & Hr5).
    { intros [= <- <-].
      exists (q1 ++ [Embed para rep]
                 ++ [Print (EmbeddingDimension (Z.of_nat (length first_embedding)))]
                 ++ q2 ++ evs5).
      split; [rewrite Ht5, Ht4, <- !app_assoc; reflexivity|].
      split; [|discriminate].
      rewrite !embed_prompts_app, Hq1p, Hq2p, Hp5. exists (map snd (yields g')). reflexivity. }
    destruct Hr5 as (emb & He5 & -> & -> & Hfull). cbv zeta in Hfull.
    unfold bind at 1.
    destruct (stream svc a g' (buf1, 1%nat) w5) as [[e | [buf2 pid2]] w6] eqn:Hst;
      apply stream_run in Hst as (evs6 & Ht6 & [k Hk] & Hr6).
    { intros [= <- <-].
      exists (q1 ++ [Embed para rep]
                 ++ [Print (EmbeddingDimension (Z.of_nat (length first_embedding)))]
                 ++ q2 ++ evs5 ++ evs6).
      split; [rewrite Ht6, Ht5, Ht4, <- !app_assoc; reflexivity|].
      split; [|discriminate].
      rewrite !embed_prompts_app, Hq1p, Hq2p, Hp5. exists k.
      cbn. now rewrite Hk. }
    destruct Hr6 as (Hp6 & Hl6 & Hpts & Hsz).
    cbn [fst]. unfold bind at 1.
    destruct (flush svc a buf2 w6) as [[e | []] w7] eqn:Hfl;
      apply flush_run in Hfl as (evs7 & Ht7 & Hp7 & He7 & Hu7).
    { intros [= <- <-].
      exists (q1 ++ [Embed para rep]
                 ++ [Print (EmbeddingDimension (Z.of_nat (length first_embedding)))]
                 ++ q2 ++ evs5 ++ evs6 ++ evs7).
      split; [rewrite Ht7, Ht6, Ht5, Ht4, <- !app_assoc; reflexivity|].
      split; [|discriminate].
      rewrite !embed_prompts_app, Hq1p, Hq2p, Hp5, Hp6, Hp7. exists [].
      cbn. now rewrite !app_nil_r. }
    unfold print, emit. intros [= <- <-]. cbn [trace].
    exists (q1 ++ [Embed para rep]
               ++ [Print (EmbeddingDimension (Z.of_nat (length first_embedding)))]
               ++ q2 ++ evs5 ++ evs6 ++ evs7 ++ [Print IndexingComplete]).
    split; [rewrite Ht7, Ht6, Ht5, Ht4, <- !app_assoc; reflexivity|].
    assert (embed_prompts
              (q1 ++ [Embed para rep]
                  ++ [Print (EmbeddingDimension (Z.of_nat (length first_embedding)))]
                  ++ q2 ++ evs5 ++ evs6 ++ evs7 ++ [Print IndexingComplete])
            = para :: map snd (yields g')) as Hprompts.
    { rewrite !embed_prompts_app, Hq1p, Hq2p, Hp5, Hp6, Hp7. cbn.
      now rewrite app_nil_r. }
    assert (embeddings
              (q1 ++ [Embed para rep]
                  ++ [Print (EmbeddingDimension (Z.of_nat (length first_embedding)))]
                  ++ q2 ++ evs5 ++ evs6 ++ evs7 ++ [Print IndexingComplete])
            = first_embedding :: embeddings evs6) as Hembs.
    { rewrite !embeddings_app, Hq1e, Hq2e, He5, He7. cbn. rewrite Hrep.
      cbn. now rewrite app_nil_r. }
    assert (upserts
              (q1 ++ [Embed para rep]
                  ++ [Print (EmbeddingDimension (Z.of_nat (length first_embedding)))]
                  ++ q2 ++ evs5 ++ evs6 ++ evs7 ++ [Print IndexingComplete])
            = upserts evs5 ++ upserts evs6 ++ upserts evs7) as Hups.
    { rewrite !upserts_app, Hq1u, Hq2u. cbn. now rewrite app_nil_r. }
    rewrite Hprompts, Hembs, Hups.
    split; [exists []; cbn; now rewrite app_nil_r|].
    intros _. split; [reflexivity|].
    split; [cbn; now rewrite Hl6|].
    assert (concat (upserts evs5) ++ buf1 = [mk_point 0 (p, i, para) first_embedding])
      as Hfirstpt.
    { revert Hfull. destruct (batch_size a <=? _); intros [-> ->]; reflexivity. }
    split.
    + rewrite !concat_app.
      assert (concat (upserts evs7) = buf2) as ->.
      { rewrite Hu7. destruct buf2; [reflexivity | cbn; now rewrite app_nil_r]. }
      rewrite Hpts, app_assoc, Hfirstpt. reflexivity.
    + intros HB. rewrite !map_app. unfold batch_sizes.
      cbn [length app] in Hfull. change (Z.of_nat 1) with 1 in Hfull.
      assert (Z.of_nat (length buf1) < batch_size a) as Hb1.
      { revert Hfull. destruct (Z.leb_spec (batch_size a) 1); intros [_ ->];
          cbn; lia. }
      destruct (Hsz HB Hb1) as [Hs6 Hm6]. cbv zeta in Hs6, Hm6.
      destruct (batch_step (batch_size a) 0 (Z.of_nat (length (yields g'))) HB
                  ltac:(lia) ltac:(lia)) as [Hrep' Hmod'].
      cbn [length]. rewrite Nat2Z.inj_succ, <- Z.add_1_r.
      change (Z.of_nat (length (yields g')) + 1)
        with (0 + (Z.of_nat (length (yields g')) + 1)) at 1 2 3.
      rewrite <- Hrep', <- Hmod'. rewrite Hs6.
      assert (map (fun b => Z.of_nat (length b)) (upserts evs7)
              = if Z.of_nat (length buf2) =? 0 then [] else [Z.of_nat (length buf2)])
        as ->.
      { rewrite Hu7. destruct buf2; reflexivity. }
      rewrite Hm6. revert Hfull.
      change (0 + 1) with 1.
      destruct (Z.leb_spec (batch_size a) 1) as [Hle | Hlt]; intros [-> ->].
      * assert (batch_size a = 1) as HB1 by lia.
        cbn [map length app]. change (Z.of_nat 1) with 1.
        change (Z.of_nat 0) with 0. rewrite <- HB1 at 1. reflexivity.
      * cbn [map length app]. change (Z.of_nat 1) with 1. reflexivity.
Qed.

End IndexerRuns.


(** *** Runs that complete *)

Section ReliableServices.

Import Indexer.

Context {S : Type} (svc : services S) (Hsvc : reliable svc).

Lemma loop_body_returns a c maybe_emb st w :
  exists st' w', loop_body svc a c maybe_emb st w = (inr st', w').
Proof.
  destruct Hsvc as (Hemb & _ & Hup).
  destruct c as [[p i] para], st as [buf pid]. unfold loop_body.
  assert (forall emb w0, exists st' w',
    (let buffer := buf ++ [mk_point pid (p, i, para) emb] in
     if batch_size a <=? Z.of_nat (length buffer)
     then bind (call (upsert svc (collection a) buffer) (Upsert (collection a) buffer))
            (fun r0 => bind (lift r0) (fun _ =>
               bind (print (Upserted (length buffer) p))
                    (fun _ => ret ([], Datatypes.S pid))))
     else ret (buffer, Datatypes.S pid)) w0 = (inr st', w')) as Hrest.
  { intros emb w0. cbv zeta.
    remember (buf ++ [mk_point pid (p, i, para) emb]) as full.
    destruct (batch_size a <=? _); [|unfold ret; eauto].
    unfold bind, call. specialize (Hup (collection a) full (store w0)).
    destruct (upsert svc (collection a) full (store w0)) as [r s1].
    cbn in Hup. subst r. cbn. eauto. }
  destruct maybe_emb as [e|].
  - unfold bind at 1, ret at 1. apply Hrest.
  - unfold bind at 1. rewrite get_embedding_run.
    destruct (Hemb para (store w)) as [v ->]. apply Hrest.
Qed.

Lemma stream_returns a g :
  forall st w, exists st' w', stream svc a g st w = (inr st', w').
Proof.
  induction g as [|[m | p i para] g IH]; intros st w.
  - cbn. unfold ret. eauto.
  - cbn [stream]. unfold bind at 1, print, emit. apply IH.
  - cbn [stream]. unfold bind at 1.
    destruct (loop_body_returns a (p, i, para) None st w) as (st1 & w1 & ->).
    apply IH.
Qed.

Lemma ensuring_collection_returns a dim w :
  exists w', ensuring_collection svc a dim w = (inr tt, w').
Proof.
  destruct Hsvc as (_ & Hre & _).
  unfold ensuring_collection, try_except. rewrite ensure_collection_run.
  destruct (get_collection svc (collection a) (store w)) as [[e | existing] s1].
  - unfold bind, print, emit, call. cbn [store trace].
    specialize (Hre (collection a) dim s1).
    destruct (recreate_collection svc (collection a) dim s1) as [r s2].
    cbn in Hre. subst r. cbn. eauto.
  - destruct (_ =? dim); [eauto|].
    specialize (Hre (collection a) dim s1).
    destruct (recreate_collection svc (collection a) dim s1) as [r s2].
    cbn in Hre. subst r. eauto.
Qed.

Lemma flush_returns a buf w : exists w', flush svc a buf w = (inr tt, w').
Proof.
  destruct Hsvc as (_ & _ & Hup). destruct buf as [|p buf]; cbn.
  - unfold ret. eauto.
  - unfold bind, call. specialize (Hup (collection a) (p :: buf) (store w)).
    destruct (upsert svc (collection a) (p :: buf) (store w)) as [r s1].
    cbn in Hup. subst r. cbn. eauto.
Qed.

(** With reliable services every run over an existing directory returns. *)
Lemma main_returns (a : args) (text_root : corpus) (s : S) :
  text_dir a = Some text_root ->
  exists w, main svc a s = (Returned, w).
Proof.
  intros Hdir. unfold main. rewrite Hdir.
  assert (exists w, index_corpus svc a text_root (World s []) = (inr tt, w))
    as [w ->]; [|eauto].
  unfold index_corpus. unfold bind at 1. rewrite count_all_run.
  destruct (length (yields (iter_paragraphs text_root)) =? 0)%nat.
  { unfold print, emit. eauto. }
  unfold bind at 1, print at 1, emit. cbn [store trace]. unfold bind at 1.
  match goal with |- context [next ?g ?w0] =>
    destruct (next_run g w0) as (ms & first & -> & _) end.
  destruct first as [[[[p i] para] g']|]; [|unfold print, emit; eauto].
  unfold bind at 1, print at 1, emit. cbn [store trace].
  unfold bind at 1. rewrite get_embedding_run.
  destruct Hsvc as (Hemb & _).
  match goal with |- context [post_embeddings svc para ?s0] =>
    destruct (Hemb para s0) as [v ->] end.
  unfold bind at 1, print at 1, emit. cbn [store trace]. unfold bind at 1.
  match goal with |- context [ensuring_collection svc a ?d ?w0] =>
    destruct (ensuring_collection_returns a d w0) as [w4 ->] end.
  unfold bind at 1.
  match goal with |- context [loop_body svc a ?c ?m ?st ?w0] =>
    destruct (loop_body_returns a c m st w0) as (st5 & w5 & ->) end.
  unfold bind at 1.
  destruct (stream_returns a g' st5 w5) as (st6 & w6 & ->).
  unfold bind at 1.
  destruct (flush_returns a (fst st6) w6) as (w7 & ->).
  unfold print, emit. eauto.
Qed.

End ReliableServices.

(** *** The flush invariant *)

Section BatchSizes.

Import Indexer.

Variables N B : Z.
Hypothesis HN : 0 <= N.
Hypothesis HB : 1 <= B.

Lemma batch_sizes_length : Z.of_nat (length (batch_sizes N B)) = ceil_div N B.
Proof.
  unfold batch_sizes, ceil_div. rewrite length_app, repeat_length, Nat2Z.inj_add.
  assert (0 <= N / B) by (apply Z.div_pos; lia).
  rewrite Z2Nat.id by lia.
  pose proof (Z.div_mod N B ltac:(lia)) as Hdm.
  pose proof (Z.mod_pos_bound N B ltac:(lia)) as Hm.
  destruct (Z.eqb_spec (N mod B) 0) as [E | E]; simpl length.
  - apply (Z.div_unique_pos _ _ _ (B - 1)); simpl Z.of_nat; lia.
  - apply (Z.div_unique_pos _ _ _ (N mod B - 1)); simpl Z.of_nat; lia.
Qed.

Lemma batch_sizes_full (i : nat) :
  (Datatypes.S i < length (batch_sizes N B))%nat -> nth i (batch_sizes N B) 0 = B.
Proof.
  unfold batch_sizes. rewrite length_app, repeat_length. intros Hi.
  assert (i < Z.to_nat (N / B))%nat as Hlt.
  { destruct (N mod B =? 0); simpl in Hi; lia. }
  rewrite app_nth1 by now rewrite repeat_length.
  apply nth_repeat_lt. exact Hlt.
Qed.

Lemma batch_sizes_last :
  1 <= N -> List.last (batch_sizes N B) 0 = if N mod B =? 0 then B else N mod B.
Proof.
  intros H1. unfold batch_sizes.
  pose proof (Z.div_mod N B ltac:(lia)) as Hdm.
  pose proof (Z.mod_pos_bound N B ltac:(lia)) as Hm.
  destruct (Z.eqb_spec (N mod B) 0) as [E | E].
  - rewrite app_nil_r.
    assert (1 <= N / B) as Hq by nia.
    destruct (Z.to_nat (N / B)) as [|q] eqn:Eq; [lia|].
    clear. induction q as [|q IH]; [reflexivity|].
    change (repeat B (Datatypes.S (Datatypes.S q)))
      with (B :: repeat B (Datatypes.S q)).
    simpl List.last in *. exact IH.
  - apply last_last.
Qed.

End BatchSizes.

Section IndexerClaims.

Import Indexer.

Context {S : Type} (svc : services S).

Lemma yields_app (g h : list step) : yields (g ++ h) = yields g ++ yields h.
Proof.
  induction g as [|[m | p i para] g IH]; cbn; [reflexivity | exact IH | now rewrite IH].
Qed.

(** X7. The chunks of a corpus are the chunks of its readable files, file by
    file, each with the path of its file and its ordinal in that file. *)
Lemma chunks_by_file (text_root : corpus) :
  chunks text_root
  = flat_map (fun f =>
                match snd f with
                | Text content =>
                    map (fun ip => (fst f, fst ip, snd ip)) (file_paragraphs content)
                | _ => []
                end) text_root.
Proof.
  unfold chunks, iter_paragraphs.
  induction text_root as [|[p e] text_root IH]; [reflexivity|].
  cbn [flat_map]. rewrite yields_app, IH. f_equal.
  unfold file_steps. cbn [fst snd]. destruct e as [| |content]; try reflexivity.
  induction (file_paragraphs content) as [|[i para] l IHl]; cbn; [reflexivity|].
  now rewrite IHl.
Qed.

(** C7. A corpus that yields no chunk: the run prints what the generator
    prints and then that no paragraphs were found, and returns; no call to
    the store (nor to the embedding service) is made, and the services are
    left as they were. *)
Theorem empty_corpus_nothing_to_index (a : args) (text_root : corpus) (s : S) :
  text_dir a = Some text_root ->
  chunks text_root = [] ->
  main svc a s
  = (Returned,
     World s (map Print (logs (iter_paragraphs text_root)) ++ [Print NoParagraphsFound]))
  /\ forallb is_print (trace (snd (main svc a s))) = true.
Proof.
  intros Hdir Hempty. unfold main. rewrite Hdir.
  destruct (index_corpus svc a text_root (World s [])) as [r w] eqn:Hrun.
  apply index_corpus_run in Hrun. rewrite Hempty in Hrun.
  destruct Hrun as [-> ->]. cbn [store trace app snd]. split; [reflexivity|].
  rewrite forallb_app. cbn. rewrite andb_true_r.
  induction (logs (iter_paragraphs text_root)); cbn; auto.
Qed.

(** C5. Over N >= 1 chunks with batch size B >= 1, a run with reliable
    services completes, and a completed run calls [upsert] exactly
    ceil(N/B) times; every call but the last carries B points, and the last
    carries N mod B points, or B when B divides N. *)
Theorem upsert_batches (a : args) (text_root : corpus) (s : S) :
  text_dir a = Some text_root ->
  1 <= Z.of_nat (length (chunks text_root)) ->
  1 <= batch_size a ->
  (reliable svc -> exists w, main svc a s = (Returned, w))
  /\ forall w, main svc a s = (Returned, w) ->
       let N := Z.of_nat (length (chunks text_root)) in
       let B := batch_size a in
       let sizes := map (fun b => Z.of_nat (length b)) (upserts (trace w)) in
       Z.of_nat (length sizes) = ceil_div N B
       /\ (forall i, (Datatypes.S i < length sizes)%nat -> nth i sizes 0 = B)
       /\ List.last sizes 0 = (if N mod B =? 0 then B else N mod B).
Proof.
  intros Hdir HN HB. split; [intros Hsvc; now apply (main_returns svc Hsvc a text_root)|].
  intros w Hmain. cbv zeta.
  unfold main in Hmain. rewrite Hdir in Hmain.
  destruct (index_corpus svc a text_root (World s [])) as [r w0] eqn:Hrun.
  destruct r as [e | []]; [discriminate|]. injection Hmain as ->.
  apply index_corpus_run in Hrun.
  destruct (chunks text_root) as [|c cs] eqn:Hc; [simpl in HN; lia|].
  destruct Hrun as (evs & Ht & _ & Hok). cbn [trace app] in Ht. rewrite Ht.
  destruct (Hok eq_refl) as (_ & _ & _ & Hsizes). rewrite (Hsizes HB).
  split; [apply batch_sizes_length; lia|].
  split; [intros i; apply batch_sizes_full; lia|].
  apply batch_sizes_last; lia.
Qed.

(** C6. In one run every chunk is sent to the embedding service at most
    once, in order, and exactly once when the run completes; the points
    upserted are then the chunks, numbered from 0, each with the embedding
    returned for it: the first chunk keeps the embedding of the probe. *)
Theorem each_chunk_embedded_once (a : args) (text_root : corpus) (s : S)
    (out : exit) (w : world S event) :
  text_dir a = Some text_root ->
  main svc a s = (out, w) ->
  (exists rest, map snd (chunks text_root) = embed_prompts (trace w) ++ rest)
  /\ (out = Returned ->
      embed_prompts (trace w) = map snd (chunks text_root)
      /\ length (embeddings (trace w)) = length (chunks text_root)
      /\ concat (upserts (trace w))
         = mk_points 0 (chunks text_root) (embeddings (trace w))).
Proof.
  intros Hdir Hmain. unfold main in Hmain. rewrite Hdir in Hmain.
  destruct (index_corpus svc a text_root (World s [])) as [r w0] eqn:Hrun.
  apply index_corpus_run in Hrun.
  assert (w0 = w /\ (out = Returned -> r = inr tt)) as [-> Hout].
  { destruct r as [e | []]; injection Hmain as <- <-; split; congruence. }
  destruct (chunks text_root) as [|c cs] eqn:Hc.
  - destruct Hrun as [_ ->]. cbn [trace app].
    assert (forall ms, embed_prompts (map Print ms ++ [Print NoParagraphsFound]) = []
                     /\ embeddings (map Print ms ++ [Print NoParagraphsFound]) = []
                     /\ upserts (map Print ms ++ [Print NoParagraphsFound]) = [])
      as Hquiet.
    { intros ms. apply quiet_projections, quiet_app; [apply prints_quiet | reflexivity]. }
    destruct (Hquiet (logs (iter_paragraphs text_root))) as (-> & -> & ->).
    split; [exists []; reflexivity | intros _; auto].
  - destruct Hrun as (evs & Ht & Hpre & Hok). cbn [trace app] in Ht. rewrite Ht.
    split; [exact Hpre|]. intros Hret.
    destruct (Hok (Hout Hret)) as (H1 & H2 & H3 & _). auto.
Qed.

(** C10. Whatever exception [ensure_collection] raises in the collection
    step, also one from the look-up of the collection, the step does not
    raise it: it prints that it creates the collection and calls
    [recreate_collection]; the step ends as that call ends. *)
Theorem ensure_failure_recreates (a : args) (dim : Z) (w w1 : world S event) (e : exn) :
  ensure_collection svc (collection a) dim w = (inl e, w1) ->
  ensuring_collection svc a dim w
  = (fst (recreate_collection svc (collection a) dim (store w1)),
     World (snd (recreate_collection svc (collection a) dim (store w1)))
           (trace w1 ++ [Print (CreatingCollection (collection a) dim);
                         RecreateCollection (collection a) dim
                           (fst (recreate_collection svc (collection a) dim (store w1)))])).
Proof.
  intros He. unfold ensuring_collection, try_except. rewrite He.
  unfold bind, print, emit, call. cbn [store trace].
  destruct (recreate_collection svc (collection a) dim (store w1)) as [[e2 | []] s2];
    cbn; now rewrite <- app_assoc.
Qed.

End IndexerClaims.

Lemma empty_corpus_nothing_to_index_witness :
  forallb Indexer.is_print
    (trace (snd (Indexer.main (MemStore.services Sample.model)
                   (Sample.index_args Sample.short_root 64) Sample.stored))) = true.
Proof.
  apply (empty_corpus_nothing_to_index (MemStore.services Sample.model)
           (Sample.index_args Sample.short_root 64) Sample.short_root Sample.stored);
    reflexivity.
Defined.

Lemma upsert_batches_witness :
  map (fun b => Z.of_nat (length b))
    (Indexer.upserts
       (trace (snd (Indexer.main (MemStore.services Sample.model)
                      (Sample.index_args Sample.root 3) ∅))))
  = [3; 1]
  /\ Z.of_nat (length (Indexer.upserts
       (trace (snd (Indexer.main (MemStore.services Sample.model)
                      (Sample.index_args Sample.root 3) ∅)))))
     = Indexer.ceil_div 4 3.
Proof.
  split; [vm_compute; reflexivity|].
  assert (1 <= Z.of_nat (length (Indexer.chunks Sample.root))) as HN
    by (vm_compute; discriminate).
  assert (1 <= Indexer.batch_size (Sample.index_args Sample.root 3)) as HB
    by (vm_compute; discriminate).
  pose proof (proj2 (upsert_batches (MemStore.services Sample.model)
                       (Sample.index_args Sample.root 3) Sample.root ∅
                       eq_refl HN HB)
                (snd (Indexer.main (MemStore.services Sample.model)
                        (Sample.index_args Sample.root 3) ∅))) as H.
  cbv zeta in H. rewrite length_map in H.
  apply H. vm_compute. reflexivity.
Defined.

(** A run against a store that cannot be reached at the look-up: the
    collection is recreated and the run completes. *)
Example unreachable_store_run :
  fst (Indexer.main Sample.unreachable (Sample.index_args Sample.root 3) tt)
  = Indexer.Returned
  /\ List.filter (fun e => negb (Indexer.is_print e) && Indexer.is_quiet e)
       (trace (snd (Indexer.main Sample.unreachable (Sample.index_args Sample.root 3) tt)))
     = [Indexer.GetCollection Sample.lectio_corpus (inl ResponseHandlingException);
        Indexer.RecreateCollection Sample.lectio_corpus 4 (inr tt)].
Proof. split; vm_compute; reflexivity. Qed.

Lemma each_chunk_embedded_once_witness :
  Indexer.embed_prompts
    (trace (snd (Indexer.main (MemStore.services Sample.model)
                   (Sample.index_args Sample.root 3) ∅)))
  = map snd (Indexer.chunks Sample.root).
Proof.
  apply (each_chunk_embedded_once (MemStore.services Sample.model)
           (Sample.index_args Sample.root 3) Sample.root ∅ Indexer.Returned
           (snd (Indexer.main (MemStore.services Sample.model)
                   (Sample.index_args Sample.root 3) ∅)) eq_refl);
    vm_compute; reflexivity.
Defined.

Lemma ensure_failure_recreates_witness :
  Indexer.ensuring_collection Sample.unreachable
    (Sample.index_args Sample.root 3) 4 (World tt [])
  = (inr tt,
     World tt [Indexer.GetCollection Sample.lectio_corpus (inl ResponseHandlingException);
               Indexer.Print (Indexer.CreatingCollection Sample.lectio_corpus 4);
               Indexer.RecreateCollection Sample.lectio_corpus 4 (inr tt)]).
Proof.
  apply (ensure_failure_recreates Sample.unreachable
           (Sample.index_args Sample.root 3) 4 (World tt [])
           (World tt [Indexer.GetCollection Sample.lectio_corpus
                        (inl ResponseHandlingException)])
           ResponseHandlingException).
  reflexivity.
Defined.

(** ** [ensure_collection] on an existing collection *)

(** A collection whose reported vector count is absent or zero and whose
    size is the requested dimension is reused: no call but the look-up. *)
Lemma ensure_collection_reuses {S} (svc : Indexer.services S) name dim w existing s1 :
  Indexer.get_collection svc name (store w) = (inr existing, s1) ->
  Indexer.or_else (Indexer.vectors_count existing) (Indexer.size existing) = dim ->
  Indexer.ensure_collection svc name dim w
  = (inr tt, World s1 (trace w ++ [Indexer.GetCollection name (inr existing);
                                   Indexer.Print (Indexer.ReusingCollection name dim)])).
Proof.
  intros Hget Hdim. rewrite ensure_collection_run, Hget.
  apply Z.eqb_eq in Hdim. now rewrite Hdim.
Qed.

(** A collection of the requested size whose reported vector count is
    neither zero nor, by chance, the dimension is recreated. *)
Lemma ensure_collection_recreates_populated {S} (svc : Indexer.services S)
    name dim w n s1 :
  Indexer.get_collection svc name (store w)
  = (inr {| Indexer.vectors_count := Some n; Indexer.size := dim |}, s1) ->
  n <> 0 -> n <> dim ->
  Indexer.ensure_collection svc name dim w
  = (fst (Indexer.recreate_collection svc name dim s1),
     World (snd (Indexer.recreate_collection svc name dim s1))
       (trace w ++ [Indexer.GetCollection name
                      (inr {| Indexer.vectors_count := Some n; Indexer.size := dim |});
                    Indexer.Print (Indexer.RecreatingCollection name dim);
                    Indexer.RecreateCollection name dim
                      (fst (Indexer.recreate_collection svc name dim s1))])).
Proof.
  intros Hget Hn0 Hnd. rewrite ensure_collection_run, Hget.
  cbn [Indexer.or_else Indexer.vectors_count Indexer.size].
  destruct (Z.eqb_spec n 0) as [|_]; [contradiction|].
  destruct (Z.eqb_spec n dim) as [|_]; [contradiction|].
  now destruct (Indexer.recreate_collection svc name dim s1).
Qed.

(** C1, at a collection of dimension 4 that holds three points: the call
    with the same name and dimension compares the dimension with the number
    of stored vectors, recreates the collection, and the points are gone. *)
Theorem ensure_collection_same_dimension_recreates :
  Sample.stored !! Sample.lectio_corpus
  = Some {| MemStore.params_size := 4;
            MemStore.points := [Sample.point 0; Sample.point 1; Sample.point 2] |}
  /\ Indexer.ensure_collection (MemStore.services Sample.model)
       Sample.lectio_corpus 4 (World Sample.stored [])
     = (inr tt,
        World {[ Sample.lectio_corpus :=
                   {| MemStore.params_size := 4; MemStore.points := [] |} ]}
          [Indexer.GetCollection Sample.lectio_corpus
             (inr {| Indexer.vectors_count := Some 3; Indexer.size := 4 |});
           Indexer.Print (Indexer.RecreatingCollection Sample.lectio_corpus 4);
           Indexer.RecreateCollection Sample.lectio_corpus 4 (inr tt)]).
Proof. split; vm_compute; reflexivity. Qed.

(** ** The search service *)

Section BackendClaims.

Import Backend.

Context {S : Type} (svc : services S) (QDRANT_COLLECTION : str).

(** C3. A query that is empty after trimming is answered with status 400;
    nothing is sent to the embedding service (nor to the store): the trace
    and the services are as before. *)
Theorem empty_query_rejected (req : SearchRequest) (w : world S event) :
  strip (query req) = [] ->
  search svc QDRANT_COLLECTION req w = (inl (HTTPException 400 QueryTextIsEmpty), w)
  /\ status_of (fst (search svc QDRANT_COLLECTION req w)) = 400.
Proof.
  intros Hq. unfold search. rewrite Hq. split; reflexivity.
Qed.

(** C9. Two requests whose queries are equal after trimming and whose
    [top_k] are equal run alike from the same state: same prompt sent to
    the embedding service, same calls, same response. *)
Theorem search_ignores_outer_whitespace (req1 req2 : SearchRequest) (w : world S event) :
  strip (query req1) = strip (query req2) ->
  top_k req1 = top_k req2 ->
  search svc QDRANT_COLLECTION req1 w = search svc QDRANT_COLLECTION req2 w.
Proof.
  intros Hq Hk. unfold search. now rewrite Hq, Hk.
Qed.

(** C2, as the code has it. [top_k] is not validated: once the trimmed
    query is non-empty and has been embedded, the store is queried with
    [limit = top_k], whatever its value, and the response is made from what
    the store returns. *)
Theorem top_k_forwarded_unchanged (req : SearchRequest) (w w1 : world S event)
    (embedding : floats) :
  is_empty (strip (query req)) = false ->
  get_embedding svc (strip (query req)) w = (inr embedding, w1) ->
  let found := client_search svc QDRANT_COLLECTION embedding (top_k req) (store w1) in
  search svc QDRANT_COLLECTION req w
  = (match fst found with
     | inl _ => inl (HTTPException 502 QdrantSearchFailed)
     | inr points => map_points points
     end,
     World (snd found)
       (trace w1 ++ [Search QDRANT_COLLECTION embedding (top_k req) (fst found)])).
Proof.
  intros Hq Hemb. cbv zeta. unfold search. rewrite Hq.
  unfold bind at 1, try_except at 1. rewrite Hemb.
  unfold bind at 1, try_except, bind, call.
  destruct (client_search svc QDRANT_COLLECTION embedding (top_k req) (store w1))
    as [[e | points] s2]; cbn.
  - reflexivity.
  - destruct (map_points points); reflexivity.
Qed.

End BackendClaims.

Section ResultMapping.

Import Backend.

Lemma point_to_result_defaults (p : ScoredPoint) :
  index_converts p = true ->
  exists r, point_to_result p = inr r /\ mapped_with_defaults p r.
Proof.
  unfold point_to_result, mapped_with_defaults, index_converts, get.
  fold (payload_of p).
  destruct (payload_of p !! of_string "paragraph_index") as [v|].
  - destruct (py_int v) as [e | z] eqn:Hz; [discriminate|]. intros _.
    eexists. split; [reflexivity|]. cbn [score file paragraph_index text].
    destruct (payload_of p !! of_string "file"),
             (payload_of p !! of_string "text"); auto.
  - intros _. eexists. split; [reflexivity|].
    cbn [score file paragraph_index text].
    destruct (payload_of p !! of_string "file"),
             (payload_of p !! of_string "text"); auto.
Qed.

(** C8, as the code has it. Every point is mapped with defaults: an absent
    payload, or a missing [file], [paragraph_index] or [text], gives the
    empty string or zero; the list of results is produced, one result per
    point, whenever [int()] accepts each [paragraph_index] that is there. *)
Theorem points_mapped_with_defaults (points : list ScoredPoint) :
  forallb index_converts points = true ->
  exists results,
    map_points points = inr results
    /\ Forall2 mapped_with_defaults points results
    /\ Forall2 (fun p r => point_payload p = None ->
                  file r = [] /\ paragraph_index r = 0 /\ text r = [])
         points results.
Proof.
  induction points as [|p points IH]; intros Hall.
  - exists []. repeat split; constructor.
  - cbn [forallb] in Hall. apply andb_true_iff in Hall as [Hp Hps].
    destruct (IH Hps) as (rs & Hrs & Hmapped & Hnone).
    destruct (point_to_result_defaults p Hp) as (r & Hr & Hmap).
    exists (r :: rs). cbn [map_points]. rewrite Hr, Hrs.
    split; [reflexivity|]. split; constructor; auto.
    intros Hno. destruct Hmap as (_ & Hf & Hi & Ht).
    unfold payload_of in *. rewrite Hno in *. cbn in *.
    rewrite lookup_empty in Hf, Hi, Ht. auto.
Qed.

End ResultMapping.

(** *** The claims at sample requests *)

Lemma empty_query_rejected_witness :
  Backend.search (Sample.search_services (inr [Sample.good_point]))
    Sample.lectio_corpus Sample.blank (World tt [])
  = (inl (HTTPException 400 QueryTextIsEmpty), World tt [])
  /\ Backend.status_of
       (fst (Backend.search (Sample.search_services (inr [Sample.good_point]))
               Sample.lectio_corpus Sample.blank (World tt []))) = 400.
Proof.
  apply (empty_query_rejected (Sample.search_services (inr [Sample.good_point]))
           Sample.lectio_corpus Sample.blank (World tt [])).
  reflexivity.
Defined.

Lemma search_ignores_outer_whitespace_witness :
  Backend.search (Sample.search_services (inr [Sample.good_point]))
    Sample.lectio_corpus (Sample.padded_hello 5) (World tt [])
  = Backend.search (Sample.search_services (inr [Sample.good_point]))
      Sample.lectio_corpus (Sample.hello 5) (World tt []).
Proof.
  apply (search_ignores_outer_whitespace
           (Sample.search_services (inr [Sample.good_point]))
           Sample.lectio_corpus (Sample.padded_hello 5) (Sample.hello 5) (World tt []));
    reflexivity.
Defined.

(** C2 fails at [top_k = 0]: the request is answered with status 200, and
    the store has been queried with [limit = 0]. *)
Lemma top_k_zero_not_rejected :
  Backend.top_k (Sample.hello 0) < 1
  /\ Backend.search (Sample.search_services (inr [])) Sample.lectio_corpus
       (Sample.hello 0) (World tt [])
     = (inr [],
        World tt [Backend.Embed (of_string "hello") (Sample.model []);
                  Backend.Search Sample.lectio_corpus Sample.v4 0 (inr [])])
  /\ Backend.status_of
       (fst (Backend.search (Sample.search_services (inr [])) Sample.lectio_corpus
               (Sample.hello 0) (World tt []))) = 200.
Proof. repeat split. Qed.

Lemma top_k_forwarded_unchanged_witness :
  Backend.search (Sample.search_services (inr [Sample.good_point]))
    Sample.lectio_corpus (Sample.hello (-3)) (World tt [])
  = (Backend.map_points [Sample.good_point],
     World tt [Backend.Embed (of_string "hello") (Sample.model []);
               Backend.Search Sample.lectio_corpus Sample.v4 (-3)
                 (inr [Sample.good_point])]).
Proof.
  apply (top_k_forwarded_unchanged (Sample.search_services (inr [Sample.good_point]))
           Sample.lectio_corpus (Sample.hello (-3)) (World tt [])
           (World tt [Backend.Embed (of_string "hello") (Sample.model [])])
           Sample.v4);
    reflexivity.
Defined.

(** C8 fails at a point whose [paragraph_index] is stored as [null]:
    [int(None)] raises, no result is returned for any point, and the request
    is answered with status 500. *)
Lemma null_paragraph_index_aborts_response :
  Backend.map_points [Sample.good_point; Sample.null_index_point] = inl TypeError
  /\ fst (Backend.search
            (Sample.search_services (inr [Sample.good_point; Sample.null_index_point]))
            Sample.lectio_corpus (Sample.hello 5) (World tt []))
     = inl TypeError
  /\ Backend.status_of
       (fst (Backend.search
               (Sample.search_services (inr [Sample.good_point; Sample.null_index_point]))
               Sample.lectio_corpus (Sample.hello 5) (World tt []))) = 500.
Proof. repeat split; vm_compute; reflexivity. Qed.

Lemma points_mapped_with_defaults_witness :
  exists results,
    Backend.map_points [Sample.good_point; Sample.bare_point] = inr results
    /\ Forall2 Backend.mapped_with_defaults [Sample.good_point; Sample.bare_point] results
    /\ Forall2 (fun p r => Backend.point_payload p = None ->
                  Backend.file r = [] /\ Backend.paragraph_index r = 0
                  /\ Backend.text r = [])
         [Sample.good_point; Sample.bare_point] results.
Proof.
  apply (points_mapped_with_defaults [Sample.good_point; Sample.bare_point]).
  vm_compute. reflexivity.
Defined.

Example bare_point_result :
  Backend.point_to_result Sample.bare_point
  = inr {| Backend.score := 1%float; Backend.file := [];
           Backend.paragraph_index := 0; Backend.text := [] |}.
Proof. vm_compute. reflexivity. Qed.

Example good_point_result :
  Backend.point_to_result Sample.good_point
  = inr {| Backend.score := 1%float; Backend.file := of_string "a.txt";
           Backend.paragraph_index := 3; Backend.text := Sample.long_paragraph |}.
Proof. vm_compute. reflexivity. Qed.

(** * Further properties *)

(** ** Text extraction *)

Section CleanupFacts.

Import Extract.

Lemma replace_cr_nil : replace [CR] [LF] [] = [].
Proof. reflexivity. Qed.

Lemma replace_cr_cons (c : char) (s : str) :
  replace [CR] [LF] (c :: s)
  = (if (c =? CR)%N then LF else c) :: replace [CR] [LF] s.
Proof.
  unfold replace. cbn [replace_from starts_with].
  rewrite (N.eqb_sym CR c), andb_true_r. now destruct (c =? CR)%N.
Qed.

Lemma replace_crlf_nil : replace [CR; LF] [LF] [] = [].
Proof. reflexivity. Qed.

Lemma replace_crlf_hit (s : str) :
  replace [CR; LF] [LF] (CR :: LF :: s) = LF :: replace [CR; LF] [LF] s.
Proof. reflexivity. Qed.

Lemma replace_crlf_miss (c : char) (s : str) :
  c <> CR \/ starts_lf s = false ->
  replace [CR; LF] [LF] (c :: s) = c :: replace [CR; LF] [LF] s.
Proof.
  intros H. unfold replace. cbn [replace_from starts_with].
  destruct (N.eqb_spec CR c) as [<- | Hc]; [|reflexivity].
  destruct H as [H | H]; [congruence|].
  destruct s as [|d s]; [reflexivity|]. cbn in H.
  rewrite (N.eqb_sym LF d), H. reflexivity.
Qed.

Lemma universal_newlines_crlf (s : str) :
  universal_newlines (CR :: LF :: s) = LF :: universal_newlines s.
Proof. reflexivity. Qed.

Lemma universal_newlines_cr (s : str) :
  starts_lf s = false -> universal_newlines (CR :: s) = LF :: universal_newlines s.
Proof.
  intros H. destruct s as [|d s]; [reflexivity|]. cbn in H.
  cbn [universal_newlines]. rewrite N.eqb_refl, H. reflexivity.
Qed.

Lemma universal_newlines_other (c : char) (s : str) :
  c <> CR -> universal_newlines (c :: s) = c :: universal_newlines s.
Proof.
  intros H. cbn [universal_newlines].
  destruct (N.eqb_spec c CR); [contradiction | reflexivity].
Qed.

Lemma cleanup_universal_newlines_bounded (n : nat) (text : str) :
  (length text <= n)%nat -> cleanup text = universal_newlines text.
Proof.
  revert text. induction n as [|n IH]; intros text Hlen.
  - destruct text; [reflexivity | cbn in Hlen; lia].
  - destruct text as [|c s]; [reflexivity|]. cbn in Hlen. unfold cleanup in *.
    destruct (N.eq_dec c CR) as [-> | Hc].
    + destruct (starts_lf s) eqn:Hs.
      * destruct s as [|d s]; [discriminate|]. cbn in Hs.
        apply N.eqb_eq in Hs. subst d. cbn in Hlen.
        rewrite replace_crlf_hit, replace_cr_cons, universal_newlines_crlf.
        cbn. f_equal. apply IH. lia.
      * rewrite replace_crlf_miss by now right.
        rewrite replace_cr_cons, universal_newlines_cr by exact Hs.
        rewrite N.eqb_refl. f_equal. apply IH. lia.
    + rewrite replace_crlf_miss by now left.
      rewrite replace_cr_cons, universal_newlines_other by exact Hc.
      destruct (N.eqb_spec c CR); [contradiction|]. f_equal. apply IH. lia.
Qed.

Lemma cleanup_normalises (text : str) : cleanup text = universal_newlines text.
Proof. apply (cleanup_universal_newlines_bounded (length text)). lia. Qed.

(** X2. The two replacements of the cleanup are one pass of line-break
    normalisation: each carriage return, with the line feed that follows it
    if there is one, becomes one line feed; every other code point is kept. *)
Theorem cleanup_universal_newlines (text : str) :
  cleanup text = universal_newlines text.
Proof. apply cleanup_normalises. Qed.

Lemma replace_cr_clean (s : str) : ~ In CR (replace [CR] [LF] s).
Proof.
  induction s as [|c s IH]; [rewrite replace_cr_nil; auto|].
  rewrite replace_cr_cons. intros [H | H]; [|auto].
  destruct (N.eqb_spec c CR); [discriminate | congruence].
Qed.

Lemma replace_cr_id (s : str) : ~ In CR s -> replace [CR] [LF] s = s.
Proof.
  induction s as [|c s IH]; intros H; [reflexivity|].
  rewrite replace_cr_cons.
  destruct (N.eqb_spec c CR) as [-> | _]; [exfalso; apply H; now left|].
  f_equal. apply IH. intros Hin. apply H. now right.
Qed.

Lemma replace_crlf_id (s : str) : ~ In CR s -> replace [CR; LF] [LF] s = s.
Proof.
  induction s as [|c s IH]; intros H; [reflexivity|].
  rewrite replace_crlf_miss.
  - f_equal. apply IH. intros Hin. apply H. now right.
  - left. intros ->. apply H. now left.
Qed.

Lemma cleanup_clean (text : str) : ~ In CR (cleanup text).
Proof. apply replace_cr_clean. Qed.

(** X1. After the cleanup no carriage return is left; the cleanup changes
    a text exactly when it has a carriage return; cleaning twice is cleaning
    once. *)
Theorem cleanup_removes_carriage_returns (text : str) :
  ~ In CR (cleanup text)
  /\ (cleanup text = text <-> ~ In CR text)
  /\ cleanup (cleanup text) = cleanup text.
Proof.
  assert (~ In CR (cleanup text)) as Hclean by apply cleanup_clean.
  assert (forall t, ~ In CR t -> cleanup t = t) as Hid.
  { intros t Ht. unfold cleanup. now rewrite replace_crlf_id, replace_cr_id. }
  split; [exact Hclean|]. split; [|now apply Hid].
  split; [intros <-; exact Hclean | apply Hid].
Qed.

End CleanupFacts.

(** *** Paragraphs of a text put together from parts *)

Section JoinedTexts.

Import Extract.

Lemma paragraphs_keep_segments (body : str) :
  paragraphs body = keep (segments_from [] [] body).
Proof.
  apply (scans_agree (length body)); [lia|]. split; [now left | trivial].
Qed.

Lemma keep_app (ps qs : list str) : keep (ps ++ qs) = keep ps ++ keep qs.
Proof. unfold keep. now rewrite map_app, List.filter_app. Qed.

Lemma segments_from_line_end (g : list str) (l : str) (s : str) :
  segments_from g l (LF :: s)
  = if BlankLine.fully_empty l
    then map (join [LF]) (BlankLine.close g) ++ segments_from [] [] s
    else segments_from (g ++ [rev l]) [] s.
Proof.
  unfold segments_from. rewrite split1_cut. cbn [BlankLine.group_lines].
  destruct l as [|c l]; cbn [rev BlankLine.fully_empty].
  - now rewrite map_app.
  - assert (BlankLine.fully_empty (rev l ++ [c]) = false) as -> by now destruct (rev l).
    reflexivity.
Qed.

Lemma segments_from_end (g : list str) (l : str) :
  segments_from g l []
  = if BlankLine.fully_empty l
    then map (join [LF]) (BlankLine.close g)
    else map (join [LF]) (BlankLine.close (g ++ [rev l])).
Proof.
  unfold segments_from. rewrite split1_nil. cbn [BlankLine.group_lines].
  destruct l as [|c l]; cbn [rev BlankLine.fully_empty].
  - now rewrite app_nil_r.
  - assert (BlankLine.fully_empty (rev l ++ [c]) = false) as -> by now destruct (rev l).
    reflexivity.
Qed.

(** A blank line ends the segment in progress. *)
Lemma segments_from_separator (a b : str) :
  forall g l,
    segments_from g l (a ++ LF :: LF :: b)
    = segments_from g l a ++ segments_from [] [] b.
Proof.
  induction a as [|c a IH]; intros g l.
  - cbn [app]. rewrite segments_from_line_end, segments_from_end.
    destruct (BlankLine.fully_empty l).
    + rewrite segments_from_line_end. cbn. reflexivity.
    + rewrite segments_from_line_end. cbn [BlankLine.fully_empty]. reflexivity.
  - cbn [app]. destruct (N.eq_dec c LF) as [-> | Hc].
    + rewrite !segments_from_line_end.
      destruct (BlankLine.fully_empty l); [rewrite IH; now rewrite app_assoc | apply IH].
    + unfold segments_from in *. rewrite !split1_other by exact Hc. apply IH.
Qed.

(** A line break at the very end changes no segment. *)
Lemma segments_from_trailing_break (a : str) :
  forall g l, segments_from g l (a ++ [LF]) = segments_from g l a.
Proof.
  induction a as [|c a IH]; intros g l.
  - cbn [app]. rewrite segments_from_line_end, !segments_from_end.
    destruct (BlankLine.fully_empty l); cbn; now rewrite ?app_nil_r.
  - cbn [app]. destruct (N.eq_dec c LF) as [-> | Hc].
    + rewrite !segments_from_line_end.
      destruct (BlankLine.fully_empty l); [now rewrite IH | apply IH].
    + unfold segments_from in *. rewrite !split1_other by exact Hc. apply IH.
Qed.

Lemma paragraphs_separator (a b : str) :
  paragraphs (a ++ LF :: LF :: b) = paragraphs a ++ paragraphs b.
Proof.
  rewrite !paragraphs_keep_segments.
  now rewrite segments_from_separator, keep_app.
Qed.

Lemma paragraphs_trailing_break (a : str) : paragraphs (a ++ [LF]) = paragraphs a.
Proof.
  rewrite !paragraphs_keep_segments.
  now rewrite segments_from_trailing_break.
Qed.

(** Line-break normalisation of a text in two parts. *)
Lemma universal_newlines_after (n : nat) :
  forall (x : str) (c : char) (y : str),
    (length x <= n)%nat -> c <> CR ->
    universal_newlines (x ++ c :: y)
    = universal_newlines (x ++ [c]) ++ universal_newlines y.
Proof.
  induction n as [|n IH]; intros x c y Hlen Hc.
  - destruct x; [|cbn in Hlen; lia]. cbn [app].
    now rewrite !universal_newlines_other by exact Hc.
  - destruct x as [|c0 x].
    { cbn [app]. now rewrite !universal_newlines_other by exact Hc. }
    cbn in Hlen. cbn [app].
    destruct (N.eq_dec c0 CR) as [-> | Hc0].
    + destruct x as [|d x].
      * cbn [app]. destruct (N.eq_dec c LF) as [-> | Hlf].
        -- now rewrite !universal_newlines_crlf.
        -- rewrite !universal_newlines_cr
             by (cbn; now destruct (N.eqb_spec c LF)).
           now rewrite !universal_newlines_other by exact Hc.
      * cbn in Hlen. cbn [app]. destruct (N.eq_dec d LF) as [-> | Hd].
        -- rewrite !universal_newlines_crlf. cbn [app]. f_equal. apply IH; [lia | exact Hc].
        -- rewrite !universal_newlines_cr
             by (cbn; now destruct (N.eqb_spec d LF)).
           cbn [app]. f_equal. apply (IH (d :: x)); [cbn; lia | exact Hc].
    + rewrite !universal_newlines_other by exact Hc0. cbn [app]. f_equal.
      apply IH; [lia | exact Hc].
Qed.

Lemma universal_newlines_before (n : nat) :
  forall (x y : str),
    (length x <= n)%nat -> starts_lf y = false ->
    universal_newlines (x ++ y) = universal_newlines x ++ universal_newlines y.
Proof.
  induction n as [|n IH]; intros x y Hlen Hy.
  - destruct x; [reflexivity | cbn in Hlen; lia].
  - destruct x as [|c0 x]; [reflexivity|]. cbn in Hlen. cbn [app].
    destruct (N.eq_dec c0 CR) as [-> | Hc0].
    + destruct x as [|d x].
      * cbn [app]. now rewrite universal_newlines_cr by exact Hy.
      * cbn in Hlen. cbn [app]. destruct (N.eq_dec d LF) as [-> | Hd].
        -- rewrite !universal_newlines_crlf. cbn [app]. f_equal. apply IH; [lia | exact Hy].
        -- rewrite !universal_newlines_cr
             by (cbn; now destruct (N.eqb_spec d LF)).
           cbn [app]. f_equal. apply (IH (d :: x)); [cbn; lia | exact Hy].
    + rewrite !universal_newlines_other by exact Hc0. cbn [app]. f_equal.
      apply IH; [lia | exact Hy].
Qed.

Lemma paragraphs_cleanup_separator (a b : str) :
  paragraphs (cleanup (a ++ LF :: LF :: b))
  = paragraphs (cleanup a) ++ paragraphs (cleanup b).
Proof.
  rewrite !cleanup_normalises.
  assert (LF <> CR) as Hlf by discriminate.
  induction a as [|c a' _] using rev_ind.
  - cbn [app]. rewrite !universal_newlines_other by exact Hlf.
    apply (paragraphs_separator []).
  - destruct (N.eq_dec c CR) as [-> | Hc].
    + rewrite <- app_assoc. cbn [app].
      rewrite (universal_newlines_before (length a') a' (CR :: LF :: LF :: b))
        by (auto; reflexivity).
      rewrite universal_newlines_crlf, universal_newlines_other by exact Hlf.
      rewrite (universal_newlines_before (length a') a' [CR]) by (auto; reflexivity).
      rewrite (universal_newlines_cr []) by reflexivity.
      change (universal_newlines []) with (@nil char).
      rewrite paragraphs_trailing_break. apply paragraphs_separator.
    + rewrite <- app_assoc. cbn [app].
      rewrite (universal_newlines_after (length a') a' c (LF :: LF :: b))
        by (auto; exact Hc).
      rewrite !universal_newlines_other by exact Hlf.
      apply paragraphs_separator.
Qed.

Lemma paragraphs_cleanup_join (parts : list str) :
  paragraphs (cleanup (join [LF; LF] parts))
  = flat_map (fun p => paragraphs (cleanup p)) parts.
Proof.
  induction parts as [|p parts IH]; [reflexivity|].
  destruct parts as [|q parts].
  - cbn [join flat_map]. now rewrite app_nil_r.
  - change (join [LF; LF] (p :: q :: parts))
      with (p ++ LF :: LF :: join [LF; LF] (q :: parts)).
    rewrite paragraphs_cleanup_separator, IH. reflexivity.
Qed.

(** X3. The chunks of the cleaned text of a PDF are the chunks of its
    cleaned pages, page after page, numbered from 0 through the whole
    document: no chunk runs over two pages. *)
Theorem chunks_of_extracted_text (pages : list str) :
  file_paragraphs (cleanup (extract_pdf pages))
  = enumerate (flat_map (fun page => paragraphs (cleanup page)) pages).
Proof.
  unfold file_paragraphs, extract_pdf.
  now rewrite paragraphs_cleanup_join.
Qed.

End JoinedTexts.

(** The two pages of the sample PDF give one chunk each: the last line of
    the first page stays in the first chunk, after one line feed, and the
    carriage return that ends the page joins nothing to the second page. *)
Lemma chunks_of_extracted_text_witness :
  file_paragraphs (Extract.cleanup (Extract.extract_pdf MoreSamples.two_pages))
  = [(0%nat, Sample.long_paragraph ++ [LF] ++ of_string "Short.");
     (1%nat, Sample.long_paragraph)].
Proof.
  rewrite (chunks_of_extracted_text MoreSamples.two_pages).
  vm_compute. reflexivity.
Defined.

(** *** The extraction run *)

Section ExtractionRun.

Import Extract.

Lemma write_attempts_app t u : write_attempts (t ++ u) = write_attempts t ++ write_attempts u.
Proof. apply flat_map_app. Qed.

Lemma written_app t u : written (t ++ u) = written t ++ written u.
Proof. apply flat_map_app. Qed.

Lemma process_writes_clean (src : source) :
  Forall (fun text => ~ In CR text) (write_attempts (fst (process src))).
Proof.
  pose proof cleanup_clean as Hclean.
  unfold process.
  destruct (is_file src); cbn [negb]; [|constructor].
  destruct (supported (suffix_lower src)); cbn [negb]; [|constructor].
  destruct (parent_mkdir src) as [e | []]; [constructor|].
  destruct (extract src) as [e | [text|]]; cbn; try constructor.
  destruct (write_text src (cleanup text)); cbn; repeat constructor; apply Hclean.
Qed.

(** X4. Whatever is passed to [write_text] in a run has no carriage return. *)
Theorem written_texts_have_no_carriage_return (dirs : error + unit) (raw_dir : list source) :
  Forall (fun text => ~ In CR text) (write_attempts (fst (main dirs raw_dir))).
Proof.
  unfold main. destruct dirs as [e | []]; [constructor|].
  induction raw_dir as [|src rest IH]; [constructor|].
  cbn [main_loop]. pose proof (process_writes_clean src) as Hsrc.
  destruct (process src) as [evs [e | []]]; [exact Hsrc|].
  destruct (main_loop rest) as [evs' r]. cbn [fst] in *.
  rewrite write_attempts_app. apply Forall_app. split; assumption.
Qed.

Lemma process_written (src : source) :
  parent_mkdir src = inr tt ->
  snd (process src) = inr tt
  /\ written (fst (process src))
     = match extracted src with Some out => [out] | None => [] end.
Proof.
  intros Hmk. unfold process, extracted.
  destruct (is_file src); cbn [negb andb]; [|auto].
  destruct (supported (suffix_lower src)); cbn [negb]; [|auto].
  rewrite Hmk.
  destruct (extract src) as [e | [text|]]; cbn; auto.
  destruct (write_text src (cleanup text)) as [e | []]; cbn; auto.
Qed.

(** X5. When the directories can be made, the run ends normally whatever the
    libraries raise, and the files written are those of the regular files
    of a supported kind whose text could be extracted and written, in
    order, each with its cleaned text; the other sources are passed over. *)
Theorem failures_are_passed_over (raw_dir : list source) :
  Forall (fun src => parent_mkdir src = inr tt) raw_dir ->
  snd (main (inr tt) raw_dir) = inr tt
  /\ written (fst (main (inr tt) raw_dir)) = omap extracted raw_dir.
Proof.
  unfold main. induction 1 as [|src rest Hsrc _ IH]; [auto|].
  cbn [main_loop omap list_omap]. destruct (process_written src Hsrc) as [Hr Hw].
  destruct (process src) as [evs r]. cbn [fst snd] in *. subst r.
  destruct (main_loop rest) as [evs' r']. cbn [fst snd] in *.
  split; [tauto|]. rewrite written_app, Hw. destruct IH as [_ ->].
  change (omap extracted (src :: rest))
    with (match extracted src with
          | Some y => y :: omap extracted rest
          | None => omap extracted rest
          end).
  now destruct (extracted src).
Qed.

End ExtractionRun.

(** ** The indexing script, in runs that may fail *)

Section IndexerAllRuns.

Import Indexer IndexerMore.

Context {S : Type} (svc : services S).

Lemma mk_points_nil pid cs : mk_points pid cs [] = [].
Proof. now destruct cs. Qed.

(** An iteration that raises: the embedding request failed and nothing was
    sent to the store, or the batch was sent and the store refused it. *)
Lemma loop_body_raises a c maybe_emb buf pid w e w' :
  loop_body svc a c maybe_emb (buf, pid) w = (inl e, w') ->
  exists evs, trace w' = trace w ++ evs
    /\ ((upserts evs = [] /\ embeddings evs = [])
        \/ exists emb,
             upserts evs = [buf ++ [mk_point pid c emb]]
             /\ embeddings evs = match maybe_emb with None => [emb] | Some _ => [] end
             /\ match maybe_emb with None => True | Some e0 => emb = e0 end
             /\ batch_size a <= Z.of_nat (length buf) + 1).
Proof.
  destruct c as [[p i] para]. unfold loop_body.
  assert (forall emb w0 evs0,
    trace w0 = trace w ++ evs0 ->
    (let buffer := buf ++ [mk_point pid (p, i, para) emb] in
     if batch_size a <=? Z.of_nat (length buffer)
     then bind (call (upsert svc (collection a) buffer) (Upsert (collection a) buffer))
            (fun r0 => bind (lift r0) (fun _ =>
               bind (print (Upserted (length buffer) p))
                    (fun _ => ret ([], Datatypes.S pid))))
     else ret (buffer, Datatypes.S pid)) w0 = (inl e, w') ->
    exists evs1, trace w' = trace w ++ evs0 ++ evs1
      /\ upserts evs1 = [buf ++ [mk_point pid (p, i, para) emb]]
      /\ embeddings evs1 = []
      /\ batch_size a <= Z.of_nat (length buf) + 1) as Hrest.
  { intros emb w0 evs0 Hw0. cbv zeta.
    remember (buf ++ [mk_point pid (p, i, para) emb]) as full eqn:Hfull.
    destruct (Z.leb_spec (batch_size a) (Z.of_nat (length full))) as [Hb | Hb];
      [|discriminate].
    unfold bind, call, print, emit, ret.
    destruct (upsert svc (collection a) full (store w0)) as [[e0 | []] s1]; cbn;
      [|discriminate].
    intros [= <- <-]. cbn. rewrite Hw0, <- app_assoc.
    eexists. split; [reflexivity|].
    repeat split. rewrite Hfull, length_app in Hb. cbn in Hb. lia. }
  destruct maybe_emb as [e0|].
  - unfold bind at 1, ret at 1. intros H.
    apply (Hrest e0 w []) in H; [|now rewrite app_nil_r].
    destruct H as (evs1 & Ht & Hu & He & Hb).
    exists evs1. split; [exact Ht|]. right. exists e0. auto.
  - unfold bind at 1. rewrite get_embedding_run.
    set (rep := fst (post_embeddings svc para (store w))).
    destruct (embedding_result rep) as [e1 | emb] eqn:Hrep.
    + intros [= <- <-]. cbn. exists [Embed para rep]. split; [reflexivity|].
      left. unfold embeddings. cbn. now rewrite Hrep.
    + intros H. apply (Hrest emb _ [Embed para rep]) in H; [|reflexivity].
      destruct H as (evs1 & Ht & Hu & He & Hb).
      exists (Embed para rep :: evs1). split; [exact Ht|]. right. exists emb.
      split; [exact Hu|]. split; [|auto].
      unfold embeddings in *. cbn. now rewrite Hrep, He.
Qed.

(** What the loop has sent to the store, however it ends. *)
Lemma stream_flushed a g :
  forall buf pid w r w',
    stream svc a g (buf, pid) w = (r, w') ->
    exists evs, trace w' = trace w ++ evs
      /\ (exists pending,
            concat (upserts evs) ++ pending
            = buf ++ mk_points pid (yields g) (embeddings evs))
      /\ Forall (fun b => b <> []) (upserts evs)
      /\ (1 <= batch_size a -> Z.of_nat (length buf) < batch_size a ->
          Forall (fun b => Z.of_nat (length b) = batch_size a) (upserts evs)
          /\ match r with
             | inr (buf', _) => Z.of_nat (length buf') < batch_size a
             | inl _ => True
             end)
      /\ (batch_size a <= 1 -> buf = [] ->
          Forall (fun b => length b = 1%nat) (upserts evs)
          /\ match r with inr (buf', _) => buf' = [] | inl _ => True end).
Proof.
  induction g as [|[m | p i para] g IH]; intros buf pid w r w'.
  - cbn. intros [= <- <-]. exists []. rewrite app_nil_r. cbn.
    split; [reflexivity|]. split; [exists buf; now rewrite app_nil_r|].
    repeat split; auto.
  - cbn [stream]. unfold bind at 1, print, emit. intros H.
    apply IH in H as (evs & Ht & Hrest). cbn in Ht.
    exists (Print m :: evs). split; [now rewrite Ht, <- app_assoc|]. exact Hrest.
  - cbn [stream yields]. unfold bind at 1.
    destruct (loop_body svc a (p, i, para) None (buf, pid) w)
      as [[e | [buf1 pid1]] w1] eqn:Hl; cbn beta iota.
    + intros [= <- <-].
      apply loop_body_raises in Hl as (evs & Ht & Hcase).
      exists evs. split; [exact Ht|].
      destruct Hcase as [[Hu He] | (emb & Hu & He & _ & Hb)]; rewrite Hu, He.
      * cbn. split; [exists buf; now rewrite app_nil_r|]. repeat split; auto.
      * cbn. rewrite !app_nil_r, mk_points_nil.
        split; [exists []; now rewrite app_nil_r|].
        split; [constructor; [now destruct buf | constructor]|].
        split.
        -- intros HB Hlt. split; [|trivial]. constructor; [|constructor].
           rewrite length_app. cbn. lia.
        -- intros HB ->. split; [|trivial]. repeat constructor.
    + apply loop_body_run in Hl as (evs1 & Ht1 & _ & Hr1).
      destruct Hr1 as (emb & He1 & _ & -> & Hfull). cbv zeta in Hfull.
      rewrite length_app in Hfull. cbn [length] in Hfull.
      rewrite Nat2Z.inj_add in Hfull. change (Z.of_nat 1) with 1 in Hfull.
      intros H. apply IH in H as (evs2 & Ht2 & [pending Hpts] & Hne & Hsz & Hone).
      exists (evs1 ++ evs2). split; [now rewrite Ht2, Ht1, <- app_assoc|].
      rewrite embeddings_app, upserts_app, He1. cbn [app mk_points].
      assert (concat (upserts evs1) ++ buf1 = buf ++ [mk_point pid (p, i, para) emb])
        as Hfirst.
      { revert Hfull. destruct (batch_size a <=? _); intros [-> ->]; cbn;
          now rewrite ?app_nil_r. }
      split.
      { exists pending. rewrite concat_app, <- app_assoc, Hpts, app_assoc, Hfirst.
        now rewrite <- app_assoc. }
      split.
      { apply Forall_app. split; [|exact Hne].
        revert Hfull. destruct (batch_size a <=? _); intros [-> _];
          [constructor; [now destruct buf | constructor] | constructor]. }
      split.
      * intros HB Hlt. revert Hfull.
        destruct (Z.leb_spec (batch_size a) (Z.of_nat (length buf) + 1)) as [Hle | Hgt];
          intros [Hu ->].
        -- destruct (Hsz HB ltac:(cbn; lia)) as [Hall Hr]. split; [|exact Hr].
           apply Forall_app. split; [|exact Hall]. rewrite Hu.
           constructor; [|constructor]. rewrite length_app. cbn. lia.
        -- assert (Z.of_nat (length (buf ++ [mk_point pid (p, i, para) emb]))
                   < batch_size a) as Hlt' by (rewrite length_app; cbn; lia).
           destruct (Hsz HB Hlt') as [Hall Hr]. split; [|exact Hr].
           apply Forall_app. split; [|exact Hall]. rewrite Hu. constructor.
      * intros HB ->. cbn [length] in Hfull.
        change (Z.of_nat 0) with 0 in Hfull. revert Hfull.
        destruct (Z.leb_spec (batch_size a) (0 + 1)) as [Hle | Hgt]; [|lia].
        intros [Hu ->]. destruct (Hone HB eq_refl) as [Hall Hr]. split; [|exact Hr].
        apply Forall_app. split; [|exact Hall]. rewrite Hu. repeat constructor.
Qed.


Lemma quiet_no_upserts (evs : list event) :
  forallb is_quiet evs = true -> upserts evs = [].
Proof. intros H. now destruct (quiet_projections evs H) as (_ & _ & ->). Qed.

(** The first iteration, the loop, the last flush: what they send to the
    store, however they end.  [emb] is the embedding of the probe. *)
Lemma items_flushed a c emb g w r w' :
  bind (loop_body svc a c (Some emb) ([], 0%nat))
    (fun st => bind (stream svc a g st)
       (fun st => bind (flush svc a (fst st)) (fun _ => print IndexingComplete)))
    w = (r, w') ->
  exists evs, trace w' = trace w ++ evs
    /\ (exists rest,
          mk_points 0 (c :: yields g) (emb :: embeddings evs)
          = concat (upserts evs) ++ rest)
    /\ Forall (fun b => b <> []) (upserts evs)
    /\ (1 <= batch_size a ->
        Forall (fun b => Z.of_nat (length b) <= batch_size a) (upserts evs))
    /\ (batch_size a <= 1 -> Forall (fun b => length b = 1%nat) (upserts evs)).
Proof.
  unfold bind at 1.
  destruct (loop_body svc a c (Some emb) ([], 0%nat) w) as [[e | [buf1 pid1]] w5] eqn:Hlb;
    cbn beta iota.
  { intros [= <- <-]. apply loop_body_raises in Hlb as (evs & Ht & Hcase).
    exists evs. split; [exact Ht|].
    destruct Hcase as [[Hu He] | (emb' & Hu & He & -> & Hb)]; rewrite Hu, He.
    - cbn. split; [eexists; reflexivity|]. repeat split; constructor.
    - cbn. rewrite mk_points_nil. split; [exists []; reflexivity|].
      split; [repeat constructor; discriminate|].
      split; intros HB; repeat constructor. cbn. lia. }
  apply loop_body_run in Hlb as (evs5 & Ht5 & _ & Hr5).
  destruct Hr5 as (emb' & He5 & -> & -> & Hfull). cbv zeta in Hfull.
  cbn [app length] in Hfull. change (Z.of_nat 1) with 1 in Hfull.
  assert (concat (upserts evs5) ++ buf1 = [mk_point 0 c emb]) as Hfirst.
  { revert Hfull. destruct (batch_size a <=? 1); intros [-> ->]; reflexivity. }
  assert (Forall (fun b => b <> []) (upserts evs5)
          /\ (1 <= batch_size a ->
              Forall (fun b => Z.of_nat (length b) <= batch_size a) (upserts evs5)
              /\ Z.of_nat (length buf1) < batch_size a)
          /\ (batch_size a <= 1 ->
              Forall (fun b => length b = 1%nat) (upserts evs5) /\ buf1 = []))
    as (Hne5 & Hle5 & Hone5).
  { revert Hfull. destruct (Z.leb_spec (batch_size a) 1) as [Hle | Hgt]; intros [-> ->].
    - split; [repeat constructor; discriminate|].
      split; intros HB; (split; [repeat constructor|]); cbn; try lia; reflexivity.
    - split; [constructor|].
      split; intros HB; [|lia]. split; [constructor | cbn; lia]. }
  unfold bind at 1.
  destruct (stream svc a g (buf1, 1%nat) w5) as [[e | [buf2 pid2]] w6] eqn:Hst;
    cbn beta iota.
  { intros [= <- <-].
    apply stream_flushed in Hst as (evs6 & Ht6 & [pending Hpts] & Hne6 & Hsz6 & Hone6).
    exists (evs5 ++ evs6). split; [now rewrite Ht6, Ht5, <- app_assoc|].
    rewrite embeddings_app, upserts_app, He5. cbn [app mk_points].
    split.
    { exists pending. rewrite concat_app, <- app_assoc, Hpts, app_assoc, Hfirst.
      reflexivity. }
    split; [apply Forall_app; auto|].
    split; intros HB; apply Forall_app.
    - destruct (Hle5 HB) as [H5 Hb1]. split; [exact H5|].
      destruct (Hsz6 HB Hb1) as [H6 _].
      eapply List.Forall_impl; [|exact H6]. cbn. intros b Hb. lia.
    - destruct (Hone5 HB) as [H5 Hb1]. split; [exact H5|].
      now destruct (Hone6 HB Hb1). }
  pose proof Hst as Hst'.
  apply stream_flushed in Hst as (evs6 & Ht6 & _ & Hne6 & Hsz6 & Hone6).
  apply stream_run in Hst' as (evs6' & Ht6' & _ & Hok).
  assert (evs6' = evs6) as -> by (rewrite Ht6 in Ht6'; now apply app_inv_head in Ht6').
  destruct Hok as (_ & _ & Hpts & _).
  cbn [fst]. unfold bind at 1.
  destruct (flush svc a buf2 w6) as [r7 w7] eqn:Hfl.
  apply flush_run in Hfl as (evs7 & Ht7 & _ & He7 & Hu7).
  intros Hfin.
  assert (exists tail, trace w' = trace w7 ++ tail /\ upserts tail = []
                       /\ embeddings tail = []) as (tail & Ht & Hut & Het).
  { revert Hfin. destruct r7 as [e | []]; cbn beta iota.
    - intros [= <- <-]. exists []. now rewrite app_nil_r.
    - unfold print, emit. intros [= <- <-]. cbn. eexists. split; [reflexivity|]. auto. }
  exists (evs5 ++ evs6 ++ evs7 ++ tail).
  split; [rewrite Ht, Ht7, Ht6, Ht5, <- !app_assoc; reflexivity|].
  rewrite !embeddings_app, !upserts_app, He5, He7, Het, Hut, !app_nil_r.
  cbn [app mk_points].
  assert (concat (upserts evs7) = buf2) as Hc7.
  { rewrite Hu7. destruct buf2; [reflexivity | cbn; now rewrite app_nil_r]. }
  split.
  { exists []. rewrite !concat_app, Hc7, Hpts, app_nil_r, app_assoc, Hfirst.
    reflexivity. }
  split.
  { repeat (apply Forall_app; split); auto.
    rewrite Hu7. destruct buf2; repeat constructor. discriminate. }
  split; intros HB; repeat (apply Forall_app; split).
  - now destruct (Hle5 HB).
  - destruct (Hle5 HB) as [_ Hb1]. destruct (Hsz6 HB Hb1) as [H6 _].
    eapply List.Forall_impl; [|exact H6]. cbn. intros b Hb. lia.
  - destruct (Hle5 HB) as [_ Hb1]. destruct (Hsz6 HB Hb1) as [_ Hb2].
    rewrite Hu7. destruct buf2; repeat constructor. lia.
  - now destruct (Hone5 HB).
  - destruct (Hone5 HB) as [_ Hb1]. now destruct (Hone6 HB Hb1).
  - destruct (Hone5 HB) as [_ Hb1]. destruct (Hone6 HB Hb1) as [_ ->].
    rewrite Hu7. constructor.
Qed.


Lemma index_corpus_flushed a text_root w r w' :
  index_corpus svc a text_root w = (r, w') ->
  exists evs, trace w' = trace w ++ evs
    /\ (exists rest,
          mk_points 0 (chunks text_root) (embeddings evs)
          = concat (upserts evs) ++ rest)
    /\ Forall (fun b => b <> []) (upserts evs)
    /\ (1 <= batch_size a ->
        Forall (fun b => Z.of_nat (length b) <= batch_size a) (upserts evs))
    /\ (batch_size a <= 1 -> Forall (fun b => length b = 1%nat) (upserts evs)).
Proof.
  assert (forall evs, forallb is_quiet evs = true ->
            (exists rest, mk_points 0 (chunks text_root) (embeddings evs)
                          = concat (upserts evs) ++ rest)
            /\ Forall (fun b => b <> []) (upserts evs)
            /\ (1 <= batch_size a ->
                Forall (fun b => Z.of_nat (length b) <= batch_size a) (upserts evs))
            /\ (batch_size a <= 1 ->
                Forall (fun b => length b = 1%nat) (upserts evs))) as Hquiet.
  { intros evs Hq. rewrite (quiet_no_upserts evs Hq). cbn.
    split; [eexists; reflexivity|]. repeat split; constructor. }
  unfold index_corpus, chunks. unfold bind at 1. rewrite count_all_run.
  destruct (yields (iter_paragraphs text_root)) as [|c cs] eqn:Hy.
  - cbn. unfold print, emit. cbn. intros [= <- <-].
    eexists. split; [rewrite <- app_assoc; reflexivity|].
    unfold chunks in Hquiet. rewrite Hy in Hquiet. apply Hquiet.
    apply quiet_app; [apply prints_quiet | reflexivity].
  - unfold chunks in Hquiet. rewrite Hy in Hquiet.
    cbn [length Nat.eqb]. unfold bind at 1, print at 1, emit. cbn [store trace].
    unfold bind at 1.
    match goal with |- context [next ?g ?w0] =>
      destruct (next_run g w0) as (ms & first & -> & Hfirst) end.
    rewrite Hy in Hfirst. destruct first as [[[[p i] para] g']|]; [|discriminate].
    injection Hfirst as -> ->. cbn [store trace].
    unfold bind at 1, print at 1, emit. cbn [store trace].
    unfold bind at 1. rewrite get_embedding_run. cbn [store trace].
    match goal with |- context [post_embeddings svc para ?s0] =>
      set (rep := fst (post_embeddings svc para s0));
      set (s1 := snd (post_embeddings svc para s0)) end.
    set (q1 := map Print (logs (iter_paragraphs text_root))
               ++ [Print (FoundParagraphs (Datatypes.S (length (yields g'))))]
               ++ map Print ms ++ [Print (GettingDimensionFrom p)]).
    assert (forallb is_quiet q1 = true) as Hq1.
    { unfold q1. repeat apply quiet_app; try apply prints_quiet; reflexivity. }
    destruct (quiet_projections _ Hq1) as (_ & Hq1e & Hq1u).
    assert ((((trace w ++ map Print (logs (iter_paragraphs text_root)))
               ++ [Print (FoundParagraphs (Datatypes.S (length (yields g'))))])
               ++ map Print ms) ++ [Print (GettingDimensionFrom p)]
            = trace w ++ q1) as -> by (unfold q1; now rewrite <- !app_assoc).
    destruct (embedding_result rep) as [e | first_embedding] eqn:Hrep.
    { intros [= <- <-]. cbn [trace].
      exists (q1 ++ [Embed para rep]). split; [now rewrite <- app_assoc|].
      rewrite embeddings_app, upserts_app, Hq1e, Hq1u.
      unfold embeddings, upserts. cbn. rewrite Hrep. cbn.
      split; [eexists; reflexivity|]. repeat split; constructor. }
    unfold bind at 1, print at 1, emit. cbn [store trace].
    unfold bind at 1.
    match goal with |- context [ensuring_collection svc a ?d ?w0] =>
      destruct (ensuring_collection svc a d w0) as [[e | []] w4] eqn:Hens;
      apply ensuring_collection_quiet in Hens as (q2 & Ht4 & Hq2) end;
      cbn [trace] in Ht4;
      destruct (quiet_projections _ Hq2) as (_ & Hq2e & Hq2u).
    { intros [= <- <-].
      exists (q1 ++ [Embed para rep]
                 ++ [Print (EmbeddingDimension (Z.of_nat (length first_embedding)))]
                 ++ q2).
      split; [rewrite Ht4, <- !app_assoc; reflexivity|].
      rewrite !upserts_app, Hq1u, Hq2u. cbn.
      split; [eexists; reflexivity|]. repeat split; constructor. }
    intros Hitems. apply items_flushed in Hitems as (evs & Ht & [rest Hpts] & Hne & Hle & Hone).
    exists (q1 ++ [Embed para rep]
               ++ [Print (EmbeddingDimension (Z.of_nat (length first_embedding)))]
               ++ q2 ++ evs).
    split; [rewrite Ht, Ht4, <- !app_assoc; reflexivity|].
    assert (embeddings
              (q1 ++ [Embed para rep]
                  ++ [Print (EmbeddingDimension (Z.of_nat (length first_embedding)))]
                  ++ q2 ++ evs) = first_embedding :: embeddings evs) as ->.
    { rewrite !embeddings_app, Hq1e, Hq2e. cbn. rewrite Hrep. reflexivity. }
    assert (upserts
              (q1 ++ [Embed para rep]
                  ++ [Print (EmbeddingDimension (Z.of_nat (length first_embedding)))]
                  ++ q2 ++ evs) = upserts evs) as ->.
    { rewrite !upserts_app, Hq1u, Hq2u. reflexivity. }
    split; [exists rest; exact Hpts|]. auto.
Qed.

Lemma mk_points_ids pid cs embs :
  map id (mk_points pid cs embs) = seq pid (length (mk_points pid cs embs))
  /\ map payload (mk_points pid cs embs)
     = map chunk_payload (take (length (mk_points pid cs embs)) cs).
Proof.
  revert pid embs. induction cs as [|c cs IH]; intros pid embs; [now split|].
  destruct embs as [|emb embs]; [now split|].
  cbn [mk_points map length seq take]. destruct (IH (Datatypes.S pid) embs) as [-> ->].
  split; reflexivity.
Qed.

Lemma mk_points_length pid cs embs :
  length (mk_points pid cs embs) = Nat.min (length cs) (length embs).
Proof.
  revert pid embs. induction cs as [|c cs IH]; intros pid embs; [reflexivity|].
  destruct embs as [|emb embs]; [reflexivity|]. cbn. now rewrite IH.
Qed.

(** X8. Whatever a run has sent to the store, also a run that fails later, is
    an initial part of the points of the corpus: the chunks in order, with
    the embeddings returned for them. *)
Theorem flushed_points_are_initial (a : args) (text_root : corpus) (s : S)
    (out : exit) (w : world S event) :
  text_dir a = Some text_root ->
  main svc a s = (out, w) ->
  exists rest,
    mk_points 0 (chunks text_root) (embeddings (trace w))
    = concat (upserts (trace w)) ++ rest.
Proof.
  intros Hdir Hmain. unfold main in Hmain. rewrite Hdir in Hmain.
  destruct (index_corpus svc a text_root (World s [])) as [r w0] eqn:Hrun.
  apply index_corpus_flushed in Hrun as (evs & Ht & Hpts & _).
  cbn [trace app] in Ht.
  assert (w0 = w) as <- by (destruct r; now injection Hmain).
  rewrite Ht. exact Hpts.
Qed.

(** X9. The points sent to the store in one run carry the ids 0, 1, 2, ... in
    the order they are sent, so no id is used twice; the payload of the
    point with id [k] is made of the file, ordinal and text of chunk [k]. *)
Theorem point_ids_count_from_zero (a : args) (text_root : corpus) (s : S)
    (out : exit) (w : world S event) :
  text_dir a = Some text_root ->
  main svc a s = (out, w) ->
  let sent := concat (upserts (trace w)) in
  map id sent = seq 0 (length sent)
  /\ NoDup (map id sent)
  /\ map payload sent = map chunk_payload (take (length sent) (chunks text_root)).
Proof.
  intros Hdir Hmain. cbv zeta.
  unfold main in Hmain. rewrite Hdir in Hmain.
  destruct (index_corpus svc a text_root (World s [])) as [r w0] eqn:Hrun.
  apply index_corpus_flushed in Hrun as (evs & Ht & [rest Hpts] & _).
  cbn [trace app] in Ht.
  assert (w0 = w) as <- by (destruct r; now injection Hmain).
  rewrite Ht.
  destruct (mk_points_ids 0 (chunks text_root) (embeddings evs)) as [Hids Hpay].
  rewrite Hpts in Hids, Hpay. rewrite map_app, length_app in Hids.
  rewrite map_app, length_app in Hpay.
  rewrite seq_app in Hids. apply app_inj_1 in Hids as [Hids _];
    [|now rewrite length_map, length_seq].
  assert (map payload (concat (upserts evs))
          = map chunk_payload (take (length (concat (upserts evs))) (chunks text_root)))
    as Hpay'.
  { apply (f_equal (take (length (concat (upserts evs))))) in Hpay.
    rewrite take_app_length' in Hpay by now rewrite length_map.
    rewrite Hpay, <- !fmap_take. f_equal.
    rewrite take_take. f_equal. lia. }
  split; [exact Hids|]. split; [|exact Hpay'].
  rewrite Hids. apply NoDup_ListNoDup, List.seq_NoDup.
Qed.

(** X10. No call to [upsert] carries an empty batch, and with a batch size of
    at least 1 none carries more points than the batch size; this holds in
    every run, also one that fails. *)
Theorem upsert_batches_bounded (a : args) (text_root : corpus) (s : S)
    (out : exit) (w : world S event) :
  text_dir a = Some text_root ->
  main svc a s = (out, w) ->
  Forall (fun b => b <> []) (upserts (trace w))
  /\ (1 <= batch_size a ->
      Forall (fun b => Z.of_nat (length b) <= batch_size a) (upserts (trace w))).
Proof.
  intros Hdir Hmain. unfold main in Hmain. rewrite Hdir in Hmain.
  destruct (index_corpus svc a text_root (World s [])) as [r w0] eqn:Hrun.
  apply index_corpus_flushed in Hrun as (evs & Ht & _ & Hne & Hle & _).
  cbn [trace app] in Ht.
  assert (w0 = w) as <- by (destruct r; now injection Hmain).
  rewrite Ht. auto.
Qed.

(** X11. With a batch size of 1, 0 or less the buffer is flushed at every
    chunk: each call to [upsert] carries one point, and a run that
    completes makes as many calls as there are chunks. *)
Theorem small_batch_size_flushes_every_point (a : args) (text_root : corpus) (s : S)
    (out : exit) (w : world S event) :
  text_dir a = Some text_root ->
  batch_size a <= 1 ->
  main svc a s = (out, w) ->
  Forall (fun b => length b = 1%nat) (upserts (trace w))
  /\ (out = Returned -> length (upserts (trace w)) = length (chunks text_root)).
Proof.
  intros Hdir HB Hmain. unfold main in Hmain. rewrite Hdir in Hmain.
  destruct (index_corpus svc a text_root (World s [])) as [r w0] eqn:Hrun.
  pose proof Hrun as Hrun'.
  apply index_corpus_flushed in Hrun as (evs & Ht & _ & _ & _ & Hone).
  cbn [trace app] in Ht.
  assert (w0 = w /\ (out = Returned -> r = inr tt)) as [<- Hout].
  { destruct r as [e | []]; injection Hmain as <- <-; split; congruence. }
  rewrite Ht. split; [auto|]. intros Hret. specialize (Hout Hret). subst r.
  assert (forall l : list (list PointStruct),
            Forall (fun b => length b = 1%nat) l -> length (concat l) = length l)
    as Hconcat.
  { induction 1 as [|b l Hb _ IH]; [reflexivity|].
    cbn. rewrite length_app, IH, Hb. reflexivity. }
  rewrite <- (Hconcat _ (Hone HB)).
  apply index_corpus_run in Hrun'.
  destruct (chunks text_root) as [|c cs] eqn:Hc.
  - destruct Hrun' as [_ ->]. cbn [trace app] in Ht.
    assert (upserts evs = []) as ->; [|reflexivity].
    rewrite <- Ht. apply quiet_no_upserts, quiet_app; [apply prints_quiet | reflexivity].
  - destruct Hrun' as (evs' & Ht' & _ & Hok). cbn [trace app] in Ht'.
    rewrite Ht in Ht'. subst evs'.
    destruct (Hok eq_refl) as (_ & Hlen & Hpts & _).
    rewrite Hpts, mk_points_length, Hlen. apply Nat.min_id.
Qed.

(** X12. When the embedding of the first chunk fails, the run raises that
    failure and the store has not been contacted: the collection is neither
    looked up nor recreated, and nothing is upserted. *)
Theorem probe_failure_leaves_store_alone (a : args) (text_root : corpus) (s : S)
    (c : path * nat * str) (cs : list (path * nat * str)) (e : exn) :
  text_dir a = Some text_root ->
  chunks text_root = c :: cs ->
  embedding_result (fst (post_embeddings svc (snd c) s)) = inl e ->
  fst (main svc a s) = Raised e
  /\ forallb (fun ev => negb (is_store_call ev)) (trace (snd (main svc a s))) = true
  /\ embed_prompts (trace (snd (main svc a s))) = [snd c].
Proof.
  intros Hdir Hc Hfail.
  assert (exists ms1 ms2,
            index_corpus svc a text_root (World s [])
            = (inl e,
               World (snd (post_embeddings svc (snd c) s))
                 ((map Print ms1 ++ map Print ms2)
                  ++ [Embed (snd c) (fst (post_embeddings svc (snd c) s))])))
    as (ms1 & ms2 & Hrun).
  { unfold index_corpus. unfold bind at 1. rewrite count_all_run.
    unfold chunks in Hc. rewrite Hc. cbn [length Nat.eqb].
    unfold bind at 1, print at 1, emit. cbn [store trace].
    unfold bind at 1.
    match goal with |- context [next ?g ?w0] =>
      destruct (next_run g w0) as (ms & first & -> & Hfirst) end.
    rewrite Hc in Hfirst. destruct first as [[[[p i] para] g']|]; [|discriminate].
    injection Hfirst as -> ->. cbn [store trace snd] in *.
    unfold bind at 1, print at 1, emit. cbn [store trace].
    unfold bind at 1. rewrite get_embedding_run. cbn [store trace].
    rewrite Hfail.
    exists (logs (iter_paragraphs text_root)
            ++ [FoundParagraphs (Datatypes.S (length (yields g')))]),
           (ms ++ [GettingDimensionFrom p]).
    rewrite !map_app. cbn [app map]. rewrite <- !app_assoc. reflexivity. }
  unfold main. rewrite Hdir, Hrun. cbn [fst snd trace].
  split; [reflexivity|].
  rewrite <- map_app. split.
  - rewrite forallb_app. cbn. rewrite andb_true_r.
    induction (ms1 ++ ms2); cbn; auto.
  - rewrite embed_prompts_app.
    assert (embed_prompts (map Print (ms1 ++ ms2)) = []) as ->
      by apply quiet_projections, prints_quiet.
    reflexivity.
Qed.

End IndexerAllRuns.

(** ** The search service: upstream failures and responses *)

Section BackendMoreFacts.

Import Backend BackendMore.

Context {S : Type} (svc : services S) (QDRANT_COLLECTION : str).

Lemma backend_get_embedding_run (prompt : str) (w : world S event) :
  let rep := fst (post_embeddings svc prompt (store w)) in
  let w1 := World (snd (post_embeddings svc prompt (store w)))
              (trace w ++ [Embed prompt rep]) in
  get_embedding svc prompt w
  = (match usable rep with
     | Some v => inr v
     | None =>
         match rep with
         | NoReply e => inl e
         | Reply status b =>
             match raise_for_status status with
             | inl _ => inl (HTTPException 502 OllamaError)
             | inr _ =>
                 match embedding_of_body b with
                 | inl e => inl e
                 | inr v => inr v
                 end
             end
         end
     end, w1).
Proof.
  cbv zeta. unfold get_embedding, bind, call, usable.
  destruct (post_embeddings svc prompt (store w)) as [rep s1]. cbn [fst snd].
  destruct rep as [e | status b]; [reflexivity|].
  destruct (raise_for_status status) as [e | []].
  - now destruct b.
  - destruct b; reflexivity.
Qed.

(** X14. When the exchange with the embedding service gives no embedding (no
    answer, an error status, a body that is not JSON or lacks the field),
    the request is answered with status 502 and the store is not queried. *)
Theorem unusable_embedding_is_502 (req : SearchRequest) (w : world S event) :
  let q := strip (query req) in
  let rep := fst (post_embeddings svc q (store w)) in
  is_empty q = false ->
  usable rep = None ->
  raises_http rep = false ->
  status_of (fst (search svc QDRANT_COLLECTION req w)) = 502
  /\ snd (search svc QDRANT_COLLECTION req w)
     = World (snd (post_embeddings svc q (store w))) (trace w ++ [Embed q rep]).
Proof.
  cbv zeta. intros Hq Hno Hhttp.
  assert (exists d,
            search svc QDRANT_COLLECTION req w
            = (inl (HTTPException 502 d),
               World (snd (post_embeddings svc (strip (query req)) (store w)))
                 (trace w ++ [Embed (strip (query req))
                                (fst (post_embeddings svc (strip (query req)) (store w)))])))
    as [d ->]; [|split; reflexivity].
  unfold search. rewrite Hq.
  unfold bind at 1, try_except at 1. rewrite backend_get_embedding_run.
  cbv zeta. rewrite Hno. unfold usable in Hno. revert Hno Hhttp.
  destruct (fst (post_embeddings svc (strip (query req)) (store w)))
    as [e | status b].
  - intros _ Hhttp. destruct e; cbn in Hhttp; try discriminate Hhttp;
      eexists; reflexivity.
  - destruct (raise_for_status status) as [e | []]; [eexists; reflexivity|].
    destruct b; intros Hno _; try discriminate Hno; eexists; reflexivity.
Qed.

Lemma point_to_result_mapped (p : ScoredPoint) (r : SearchResult) :
  point_to_result p = inr r -> mapped_with_defaults p r.
Proof.
  unfold point_to_result, mapped_with_defaults, get. fold (payload_of p).
  destruct (payload_of p !! of_string "file"),
           (payload_of p !! of_string "text"),
           (payload_of p !! of_string "paragraph_index") as [v|];
    try (destruct (py_int v) as [e | z] eqn:Hz; [discriminate|]);
    intros H; injection H as <-; cbn [score file paragraph_index text]; auto.
Qed.

Lemma map_points_mapped (points : list ScoredPoint) :
  forall results, map_points points = inr results ->
                  Forall2 mapped_with_defaults points results.
Proof.
  induction points as [|p points IH]; intros results.
  - intros [= <-]. constructor.
  - cbn [map_points]. destruct (point_to_result p) as [e | r] eqn:Hr; [discriminate|].
    destruct (map_points points) as [e | rs]; [discriminate|].
    intros [= <-]. constructor; [now apply point_to_result_mapped | now apply IH].
Qed.

(** X15. A request that is answered with results has made one embedding
    request, for the trimmed query, and one store query; the results are
    the points the store returned, one for one and in the store's order,
    whatever [top_k] is: the service neither cuts nor sorts the list. *)
Theorem results_mirror_the_store (req : SearchRequest) (w w' : world S event)
    (results : list SearchResult) :
  search svc QDRANT_COLLECTION req w = (inr results, w') ->
  let q := strip (query req) in
  let rep := fst (post_embeddings svc q (store w)) in
  is_empty q = false
  /\ exists embedding points,
       usable rep = Some embedding
       /\ trace w' = trace w ++ [Embed q rep;
                                 Search QDRANT_COLLECTION embedding (top_k req) (inr points)]
       /\ Forall2 mapped_with_defaults points results.
Proof.
  cbv zeta. unfold search.
  destruct (is_empty (strip (query req))); [discriminate|].
  intros Hrun. split; [reflexivity|]. revert Hrun.
  unfold bind at 1, try_except at 1. rewrite backend_get_embedding_run. cbv zeta.
  destruct (usable (fst (post_embeddings svc (strip (query req)) (store w))))
    as [embedding|] eqn:Hu.
  - unfold bind at 1, try_except, bind, call. cbn [store trace].
    destruct (client_search svc QDRANT_COLLECTION embedding (top_k req) _)
      as [[e | points] s2]; cbn; [discriminate|].
    destruct (map_points points) as [e | rs] eqn:Hmap; cbn; [discriminate|].
    intros [= <- <-]. exists embedding, points.
    split; [reflexivity|]. split; [cbn; now rewrite <- app_assoc|].
    now apply map_points_mapped.
  - unfold usable in Hu.
    destruct (fst (post_embeddings svc (strip (query req)) (store w)))
      as [e | status b].
    + destruct e; discriminate.
    + destruct (raise_for_status status) as [e | []]; [discriminate|].
      destruct b; discriminate.
Qed.

End BackendMoreFacts.

(** ** Chunks as parts of the text *)

Section VerbatimChunks.

Lemma verbatim_in_trans (p q body : str) :
  verbatim_in p q -> verbatim_in q body -> verbatim_in p body.
Proof.
  intros (b1 & a1 & ->) (b2 & a2 & ->).
  exists (b2 ++ b1), (a1 ++ a2). now rewrite <- !app_assoc.
Qed.

Lemma lstrip_suffix (s : str) : exists before, s = before ++ lstrip s.
Proof.
  induction s as [|c s [before IH]]; [now exists []|].
  cbn [lstrip]. destruct (isspace c); [|now exists []].
  exists (c :: before). cbn. now rewrite <- IH.
Qed.

Lemma strip_verbatim (s : str) : verbatim_in (strip s) s.
Proof.
  unfold strip, rstrip.
  destruct (lstrip_suffix s) as [before Hs].
  destruct (lstrip_suffix (rev (lstrip s))) as [after' Hr].
  exists before, (rev after').
  rewrite <- rev_app_distr, <- Hr, rev_involutive. exact Hs.
Qed.

Lemma blank_line_inside_part (p q : str) :
  verbatim_in p q -> blank_line_inside p -> blank_line_inside q.
Proof.
  intros (before & after & ->) (u & v & ->).
  exists (before ++ u), (v ++ after). now rewrite <- !app_assoc.
Qed.

(** Adding a code point to a piece without blank line gives one only when
    a line break is added after a line break. *)
Lemma no_blank_line_snoc (a : str) (c : char) :
  ~ blank_line_inside (rev a) ->
  (c = LF -> match a with d :: _ => d <> LF | [] => True end) ->
  ~ blank_line_inside (rev (c :: a)).
Proof.
  intros Ha Hc (u & v & Huv). cbn [rev] in Huv.
  destruct v as [|x v] using rev_ind.
  - change (u ++ [LF; LF]) with (u ++ [LF] ++ [LF]) in Huv.
    rewrite app_assoc in Huv. apply app_inj_tail in Huv as [Hrev ->].
    specialize (Hc eq_refl). destruct a as [|d a]; cbn in Hrev.
    + now destruct u.
    + apply app_inj_tail in Hrev as [_ ->]. congruence.
  - clear IHv. apply Ha. exists u, v.
    change (u ++ LF :: LF :: v ++ [x]) with (u ++ (LF :: LF :: v) ++ [x]) in Huv.
    rewrite app_assoc in Huv. now apply app_inj_tail in Huv as [-> _].
Qed.

(** Every piece of [text.split("\n\n")] is a part of the text and has no
    blank line inside. *)
Lemma split_pieces (n : nat) :
  forall (s a piece : str),
    (length s <= n)%nat ->
    ~ blank_line_inside (rev a) ->
    (starts_lf s = true -> match a with d :: _ => d <> LF | [] => True end) ->
    In piece (split_from [LF; LF] 0 a s) ->
    verbatim_in piece (rev a ++ s) /\ ~ blank_line_inside piece.
Proof.
  induction n as [|n IH]; intros s a piece Hlen Ha Hhd Hin.
  - destruct s; [|cbn in Hlen; lia]. rewrite split2_nil in Hin.
    destruct Hin as [<- | []]. split; [|exact Ha].
    exists [], []. now rewrite !app_nil_r.
  - destruct s as [|c s].
    { rewrite split2_nil in Hin. destruct Hin as [<- | []]. split; [|exact Ha].
      exists [], []. now rewrite !app_nil_r. }
    cbn in Hlen. destruct (N.eq_dec c LF) as [-> | Hc].
    + destruct (starts_lf s) eqn:Hs.
      * destruct s as [|d s]; [discriminate|]. cbn in Hs.
        apply N.eqb_eq in Hs. subst d. cbn in Hlen.
        rewrite split2_cut in Hin. destruct Hin as [<- | Hin].
        -- split; [|exact Ha]. exists [], (LF :: LF :: s). reflexivity.
        -- assert (~ blank_line_inside (rev [])) as H1
             by (intros (u & v & Huv); now destruct u).
           destruct (IH s [] piece ltac:(lia) H1 (fun _ => I) Hin) as [Hv Hb].
           split; [|exact Hb]. apply (verbatim_in_trans _ _ _ Hv).
           exists (rev a ++ [LF; LF]), []. cbn. now rewrite <- app_assoc, app_nil_r.
      * rewrite split2_lone in Hin by exact Hs.
        assert (~ blank_line_inside (rev (LF :: a))) as H1
          by (apply no_blank_line_snoc; [exact Ha | intros _; now apply Hhd]).
        assert (starts_lf s = true -> LF <> LF) as H2 by (rewrite Hs; discriminate).
        destruct (IH s (LF :: a) piece ltac:(lia) H1 H2 Hin) as [Hv Hb].
        split; [|exact Hb]. cbn [rev] in Hv. now rewrite <- app_assoc in Hv.
    + rewrite split2_other in Hin by exact Hc.
      assert (~ blank_line_inside (rev (c :: a))) as H1
        by (apply no_blank_line_snoc; [exact Ha | intros ->; congruence]).
      destruct (IH s (c :: a) piece ltac:(lia) H1 (fun _ => Hc) Hin) as [Hv Hb].
      split; [|exact Hb]. cbn [rev] in Hv. now rewrite <- app_assoc in Hv.
Qed.

(** X6. Every chunk of a text stands in the text as it is, has no white space
    at either end and no empty line inside. *)
Theorem chunks_are_verbatim (body : str) (idx : nat) (para : str) :
  In (idx, para) (file_paragraphs body) ->
  verbatim_in para body
  /\ strip para = para
  /\ ~ blank_line_inside para.
Proof.
  intros Hin.
  assert (In para (paragraphs body)) as Hp.
  { unfold file_paragraphs, enumerate in Hin.
    rewrite <- (enumerate_from_snd (paragraphs body) 0).
    apply in_map_iff. exists (idx, para). auto. }
  unfold paragraphs, raw_paragraphs in Hp.
  apply filter_In in Hp as [Hp _]. apply in_map_iff in Hp as (piece & <- & Hpiece).
  assert (~ blank_line_inside (rev [])) as H1
    by (intros (u & v & Huv); now destruct u).
  destruct (split_pieces (length body) body [] piece (le_n _) H1 (fun _ => I) Hpiece)
    as [Hv Hb].
  split; [|split].
  - apply (verbatim_in_trans _ piece); [apply strip_verbatim | exact Hv].
  - apply strip_idem.
  - intros Hblank. apply Hb.
    apply (blank_line_inside_part (strip piece)); [apply strip_verbatim | exact Hblank].
Qed.

End VerbatimChunks.

(** ** The collection step *)

Section CollectionStep.

Import Indexer.

Context {S : Type} (svc : services S).

(** X13. The collection step looks the collection up once.  When it returns,
    either the collection was found and the value the code compares,
    [existing.vectors_count or existing.config.params.vectors.size] (the
    number of stored vectors unless that is [None] or 0, the configured
    size otherwise), equals the probed dimension, and nothing but the reuse
    message followed; or its last act is a [recreate_collection] with the
    probed dimension that succeeded.  When it raises, it raises what the
    [recreate_collection] of the [except] branch raised. *)
Theorem collection_step_outcome (a : args) (dim : Z) (w : world S event)
    (r : exn + unit) (w' : world S event) :
  ensuring_collection svc a dim w = (r, w') ->
  exists looked_up rest,
    trace w' = trace w ++ GetCollection (collection a) looked_up :: rest
    /\ forallb (fun ev => match ev with GetCollection _ _ => false | _ => true end) rest
       = true
    /\ match r with
       | inr _ =>
           (exists existing,
              looked_up = inr existing
              /\ or_else (vectors_count existing) (size existing) = dim
              /\ rest = [Print (ReusingCollection (collection a) dim)])
           \/ exists before,
                rest = before ++ [RecreateCollection (collection a) dim (inr tt)]
       | inl e =>
           exists before,
             rest = before ++ [Print (CreatingCollection (collection a) dim);
                               RecreateCollection (collection a) dim (inl e)]
       end.
Proof.
  unfold ensuring_collection, try_except. rewrite ensure_collection_run.
  destruct (get_collection svc (collection a) (store w)) as [[e | existing] s1].
  - unfold bind, print, emit, call. cbn [store trace].
    destruct (recreate_collection svc (collection a) dim s1) as [[e2 | []] s2];
      cbn; intros [= <- <-]; cbn; rewrite <- !app_assoc; cbn;
      eexists _, _; (split; [reflexivity|]); (split; [reflexivity|]).
    + exists []. reflexivity.
    + right. exists [Print (CreatingCollection (collection a) dim)]. reflexivity.
  - destruct (Z.eqb_spec (or_else (vectors_count existing) (size existing)) dim)
      as [Hdim | Hdim].
    + intros [= <- <-]. cbn. eexists _, _. split; [reflexivity|].
      split; [reflexivity|]. left. exists existing. auto.
    + destruct (recreate_collection svc (collection a) dim s1) as [[e1 | []] s2].
      * unfold bind, print, emit, call. cbn [store trace].
        destruct (recreate_collection svc (collection a) dim s2) as [[e2 | []] s3];
          cbn; intros [= <- <-]; cbn; rewrite <- !app_assoc; cbn;
          eexists _, _; (split; [reflexivity|]); (split; [reflexivity|]).
        -- eexists [_; _]. reflexivity.
        -- right. eexists [_; _; _]. reflexivity.
      * intros [= <- <-]. cbn. eexists _, _. split; [reflexivity|].
        split; [reflexivity|]. right. eexists [_]. reflexivity.
Qed.

End CollectionStep.

(** ** The further properties at sample inputs *)

Lemma collection_step_outcome_witness :
  exists looked_up rest,
    trace (snd (Indexer.ensuring_collection MoreSamples.stubborn
                  (Sample.index_args Sample.root 3) 4 (World 0%nat [])))
    = [] ++ Indexer.GetCollection Sample.lectio_corpus looked_up :: rest
    /\ forallb (fun ev => match ev with Indexer.GetCollection _ _ => false | _ => true end)
         rest = true
    /\ ((exists existing,
           looked_up = inr existing
           /\ Indexer.or_else (Indexer.vectors_count existing) (Indexer.size existing) = 4
           /\ rest = [Indexer.Print (Indexer.ReusingCollection Sample.lectio_corpus 4)])
        \/ exists before,
             rest = before ++ [Indexer.RecreateCollection Sample.lectio_corpus 4 (inr tt)]).
Proof.
  apply (collection_step_outcome MoreSamples.stubborn
           (Sample.index_args Sample.root 3) 4 (World 0%nat []) (inr tt)
           (snd (Indexer.ensuring_collection MoreSamples.stubborn
                   (Sample.index_args Sample.root 3) 4 (World 0%nat [])))).
  reflexivity.
Defined.

Lemma failures_are_passed_over_witness :
  snd (Extract.main (inr tt) MoreSamples.raw_dir) = inr tt
  /\ Extract.written (fst (Extract.main (inr tt) MoreSamples.raw_dir))
     = omap Extract.extracted MoreSamples.raw_dir.
Proof.
  apply (failures_are_passed_over MoreSamples.raw_dir).
  repeat constructor.
Defined.

(** The carriage return that ends the first page and the line feed of the
    separator after it become one line break. *)
Example extraction_run :
  Extract.written (fst (Extract.main (inr tt) MoreSamples.raw_dir))
  = [(of_string "book.txt",
      Sample.long_paragraph ++ [LF] ++ of_string "Short." ++ [LF; LF]
      ++ Sample.long_paragraph)]
  /\ file_paragraphs
       (Sample.long_paragraph ++ [LF] ++ of_string "Short." ++ [LF; LF]
        ++ Sample.long_paragraph)
     = [(0%nat, Sample.long_paragraph ++ [LF] ++ of_string "Short.");
        (1%nat, Sample.long_paragraph)].
Proof. split; vm_compute; reflexivity. Qed.

Lemma flushed_points_are_initial_witness :
  exists rest,
    Indexer.mk_points 0 (Indexer.chunks Sample.root)
      (Indexer.embeddings
         (trace (snd (Indexer.main MoreSamples.flaky (Sample.index_args Sample.root 2) 0%nat))))
    = concat (Indexer.upserts
                (trace (snd (Indexer.main MoreSamples.flaky
                               (Sample.index_args Sample.root 2) 0%nat)))) ++ rest.
Proof.
  apply (flushed_points_are_initial MoreSamples.flaky (Sample.index_args Sample.root 2)
           Sample.root 0%nat (Indexer.Raised ConnectionError));
    vm_compute; reflexivity.
Defined.

Lemma point_ids_count_from_zero_witness :
  map Indexer.id
    (concat (Indexer.upserts
       (trace (snd (Indexer.main MoreSamples.flaky (Sample.index_args Sample.root 2) 0%nat)))))
  = [0%nat; 1%nat].
Proof.
  pose proof (point_ids_count_from_zero MoreSamples.flaky (Sample.index_args Sample.root 2)
                Sample.root 0%nat (Indexer.Raised ConnectionError)
                (snd (Indexer.main MoreSamples.flaky (Sample.index_args Sample.root 2) 0%nat))
                eq_refl) as H.
  cbv zeta in H. destruct H as [H _]; [vm_compute; reflexivity|].
  rewrite H. vm_compute. reflexivity.
Defined.

Lemma upsert_batches_bounded_witness :
  Forall (fun b => b <> [])
    (Indexer.upserts
       (trace (snd (Indexer.main MoreSamples.flaky (Sample.index_args Sample.root 2) 0%nat)))).
Proof.
  apply (upsert_batches_bounded MoreSamples.flaky (Sample.index_args Sample.root 2)
           Sample.root 0%nat (Indexer.Raised ConnectionError));
    vm_compute; reflexivity.
Defined.

Lemma small_batch_size_flushes_every_point_witness :
  Forall (fun b => length b = 1%nat)
    (Indexer.upserts
       (trace (snd (Indexer.main (MemStore.services Sample.model)
                      (Sample.index_args Sample.root (-5)) ∅)))).
Proof.
  apply (small_batch_size_flushes_every_point (MemStore.services Sample.model)
           (Sample.index_args Sample.root (-5)) Sample.root ∅ Indexer.Returned);
    vm_compute; try reflexivity; discriminate.
Defined.

Lemma probe_failure_leaves_store_alone_witness :
  fst (Indexer.main MoreSamples.down (Sample.index_args Sample.root 3) tt)
  = Indexer.Raised (HTTPError 500).
Proof.
  apply (probe_failure_leaves_store_alone MoreSamples.down
           (Sample.index_args Sample.root 3) Sample.root tt
           (of_string "a.txt", 0%nat, Sample.long_paragraph)
           (tl (Indexer.chunks Sample.root)) (HTTPError 500));
    vm_compute; reflexivity.
Defined.

Lemma unusable_embedding_is_502_witness :
  Backend.status_of
    (fst (Backend.search MoreSamples.unavailable Sample.lectio_corpus
            (Sample.hello 5) (World tt []))) = 502.
Proof.
  apply (unusable_embedding_is_502 MoreSamples.unavailable Sample.lectio_corpus
           (Sample.hello 5) (World tt []));
    reflexivity.
Defined.

Lemma results_mirror_the_store_witness :
  exists embedding points,
    BackendMore.usable (Sample.model []) = Some embedding
    /\ trace (snd (Backend.search MoreSamples.generous Sample.lectio_corpus
                     (Sample.hello 1) (World tt [])))
       = [] ++ [Backend.Embed (of_string "hello") (Sample.model []);
                Backend.Search Sample.lectio_corpus embedding 1 (inr points)]
    /\ Forall2 Backend.mapped_with_defaults points
         [{| Backend.score := 1%float; Backend.file := of_string "a.txt";
             Backend.paragraph_index := 3; Backend.text := Sample.long_paragraph |};
          {| Backend.score := 1%float; Backend.file := [];
             Backend.paragraph_index := 0; Backend.text := [] |}].
Proof.
  apply (results_mirror_the_store MoreSamples.generous Sample.lectio_corpus
           (Sample.hello 1) (World tt [])
           (snd (Backend.search MoreSamples.generous Sample.lectio_corpus
                   (Sample.hello 1) (World tt [])))).
  vm_compute. reflexivity.
Defined.

Lemma chunks_are_verbatim_witness :
  verbatim_in Sample.long_paragraph sample_body
  /\ strip Sample.long_paragraph = Sample.long_paragraph
  /\ ~ blank_line_inside Sample.long_paragraph.
Proof.
  apply (chunks_are_verbatim sample_body 0 Sample.long_paragraph).
  vm_compute. left. reflexivity.
Defined.

(** *** The dispatch on the suffix *)

Section SuffixDispatch.

Import Extract.

(** X16. For a path that passed the suffix check, one of the three
    extractors runs: the [else: continue] of the [try] block is never
    taken, so no iteration prints its "Extracting" line and then neither
    writes nor reports a failure. *)
Theorem else_continue_is_dead (src : source) :
  supported (suffix_lower src) = true ->
  extract src <> inr None
  /\ fst (process src) <> [PrintExtracting (path_of src) (out_path src)].
Proof.
  intros Hsup.
  assert (Hex : extract src <> inr None).
  { revert Hsup. unfold supported, supported_exts, extract. cbn [existsb].
    destruct (str_eqb (suffix_lower src) (of_string ".pdf")).
    { intros _. now destruct (fitz_pages src). }
    destruct (str_eqb (suffix_lower src) (of_string ".epub")).
    { intros _. now destruct (epub_items src). }
    destruct (str_eqb (suffix_lower src) (of_string ".mobi")).
    { intros _. now destruct (extract_mobi src). }
    cbn. discriminate. }
  split; [exact Hex|].
  unfold process. rewrite Hsup.
  destruct (is_file src); cbn [negb fst]; [|discriminate].
  destruct (parent_mkdir src) as [e | []]; [discriminate|].
  destruct (extract src) as [e | [text|]]; [discriminate | | congruence].
  destruct (write_text src (cleanup text)); discriminate.
Qed.

End SuffixDispatch.

Lemma else_continue_is_dead_witness :
  Extract.extract MoreSamples.pdf_source <> inr None
  /\ fst (Extract.process MoreSamples.pdf_source)
     <> [Extract.PrintExtracting (Extract.path_of MoreSamples.pdf_source)
                                 (Extract.out_path MoreSamples.pdf_source)].
Proof.
  apply (else_continue_is_dead MoreSamples.pdf_source).
  vm_compute. reflexivity.
Defined.
